(** * FaceRecognizer: enrollment store, matcher and persistence

    A shallow embedding of [src/face-recognition.js] (class [FaceRecognizer])
    together with the properties its specification states about it.

    Conventions of the embedding.
    - The JavaScript [Map] [enrolledFaces] is a finite map from labels to
      JavaScript values; the iteration order of the [Map] is not represented
      (no property below depends on it).
    - JavaScript numbers are IEEE 754 binary64 values ([float]).
    - [localStorage] holds a text; a text is represented by what [JSON.parse]
      makes of it (see [storedText]).
    - Exceptions are explicit ([outcome]); [console] output is a list of
      events.
    - The face-api.js library is external to the repository: its vector
      distance and the typed-array constructor of the platform are the
      fields of a class ([Platform]), and its matcher is modelled from the
      specification.
    - A second model ([Heap]) keeps the arrays of numbers as objects with an
      identity, for the one property that is about sharing. *)

From Stdlib Require Import Floats Ascii String.
From stdpp Require Import base option list strings gmap pretty.

#[local] Set Warnings "-register-all,-inexact-float,-clear-no-such-hyp".
Local Open Scope string_scope.

(** ** JavaScript values *)

(** The values that stored data can take: what [JSON.parse] returns and
    what the code builds from numbers and strings. [undefined] is not among
    them; a missing property is an absent value ([None]). *)
Inductive jsval : Type :=
| JNull
| JBool (b : bool)
| JNum (x : float)
| JStr (s : string)
| JArr (xs : list jsval)
| JObj (fields : list (string * jsval)).

(** The result of a call that may throw. *)
Inductive outcome (A : Type) : Type :=
| Returned (a : A)
| Thrown (message : string).
Arguments Returned {A} a.
Arguments Thrown {A} message.

#[global] Instance outcome_ret : MRet outcome := fun A a => Returned a.
#[global] Instance outcome_bind : MBind outcome := fun A B k c =>
  match c with
  | Returned a => k a
  | Thrown message => Thrown message
  end.

(** [xs.map(f)] for an [f] that may throw: the first exception escapes. *)
Fixpoint mapOutcome {A B} (f : A -> outcome B) (xs : list A) : outcome (list B) :=
  match xs with
  | [] => Returned []
  | x :: rest =>
      y ← f x;
      ys ← mapOutcome f rest;
      Returned (y :: ys)
  end.

(** A [Float32Array] argument that may be [null] or [undefined]: every
    typed array, also an empty one, is an object and hence truthy. *)
Definition truthyDescriptor (d : option (list float)) : bool :=
  match d with
  | Some _ => true
  | None => false
  end.

Definition truthyString (s : string) : bool := negb (String.eqb s "").

(** The own property [key] of an object, [None] ([undefined]) when
    missing. *)
Fixpoint fieldOf (key : string) (fields : list (string * jsval)) : option jsval :=
  match fields with
  | [] => None
  | (k, v) :: rest => if String.eqb k key then Some v else fieldOf key rest
  end.

(** [v.key] for a key that is neither an index nor [length]: reading a
    property of [null] throws a [TypeError];
    primitives and arrays have no such property. *)
Definition getProp (v : jsval) (key : string) : outcome (option jsval) :=
  match v with
  | JNull => Thrown "TypeError"
  | JObj fields => Returned (fieldOf key fields)
  | JBool _ | JNum _ | JStr _ | JArr _ => Returned None
  end.

(** ** JSON *)

(** A number as [JSON.stringify] then [JSON.parse] returns it: a finite
    number comes back as itself (negative zero as zero), [NaN] and the
    infinities are written as [null]. *)
Definition jsonNumber (x : float) : jsval :=
  if PrimFloat.is_nan x || PrimFloat.is_infinity x then JNull
  else JNum (if PrimFloat.is_zero x then PrimFloat.zero else x).

(** [JSON.parse (JSON.stringify v)]: the value that is read back from the
    text written for [v]. *)
Fixpoint jsonImage (v : jsval) : jsval :=
  match v with
  | JNull => JNull
  | JBool b => JBool b
  | JNum x => jsonNumber x
  | JStr s => JStr s
  | JArr xs => JArr (map jsonImage xs)
  | JObj fields =>
      JObj ((fix props (fs : list (string * jsval)) : list (string * jsval) :=
               match fs with
               | [] => []
               | (k, x) :: rest => (k, jsonImage x) :: props rest
               end) fields)
  end.

(** The text kept under a [localStorage] key, classified by what the
    platform makes of it: the empty text (falsy), a non-empty text on which
    [JSON.parse] throws a [SyntaxError], or a text that [JSON.parse] turns
    into the value [v]. *)
Inductive storedText : Type :=
| EmptyText
| Unparsable
| JsonText (v : jsval).

(** [if (saved)] on the result of [localStorage.getItem]: [null] (no item)
    and the empty text are falsy. *)
Definition truthySaved (saved : option storedText) : bool :=
  match saved with
  | None | Some EmptyText => false
  | Some _ => true
  end.

Definition JSON_parse (text : storedText) : outcome jsval :=
  match text with
  | JsonText v => Returned v
  | EmptyText | Unparsable => Thrown "SyntaxError"
  end.

(** [Object.entries v]: the own enumerable string-keyed properties. *)
Definition Object_entries (v : jsval) : outcome (list (string * jsval)) :=
  match v with
  | JNull => Thrown "TypeError"
  | JBool _ | JNum _ => Returned []
  | JStr s =>
      Returned (imap (fun i c => (pretty i, JStr (String c EmptyString)))
                     (String.list_ascii_of_string s))
  | JArr xs => Returned (imap (fun i x => (pretty i, x)) xs)
  | JObj fields => Returned fields
  end.

(** [new Map(entries)]: later entries overwrite earlier ones. *)
Definition Map_of_entries (entries : list (string * jsval)) : gmap string jsval :=
  foldl (fun m kv => <[kv.1 := kv.2]> m) ∅ entries.

(** [Object.fromEntries(map)]. *)
Definition Object_fromEntries (m : gmap string jsval) : jsval :=
  JObj (map_to_list m).


(** ** The external library *)

(** What the code uses of its platform and of face-api.js without defining
    it: [new Float32Array(v)], where [v] may be [undefined] ([None]) and
    which throws for some arguments, and the library's distance between two
    descriptors. *)
Class Platform : Type := {
  newFloat32Array : option jsval -> outcome (list float);
  euclideanDistance : list float -> list float -> float
}.

Module faceapi.

(** [new faceapi.LabeledFaceDescriptors(label, [descriptor])]: the code
    always passes exactly one descriptor per label. *)
Record LabeledFaceDescriptors : Type := {
  label : string;
  descriptor : list float
}.

(** [new faceapi.FaceMatcher(labeledDescriptors, distanceThreshold)]. *)
Record FaceMatcher : Type := {
  labeledDescriptors : list LabeledFaceDescriptors;
  distanceThreshold : float
}.

(** What [findBestMatch] returns; [matchLabel] is its property [label]. *)
Record FaceMatch : Type := {
  matchLabel : string;
  distance : float
}.

Section Matcher.
Context {platform : Platform}.

(** Modelled from the spec: the search of [FaceMatcher] (face-api.js is
    not part of the repository). The distance to every enrolled
    descriptor is computed and the minimum selected, the first
    encountered winning a tie; [None] when there is nothing to search. *)
Definition closest (query : list float)
    (best : option FaceMatch) (candidate : LabeledFaceDescriptors)
    : option FaceMatch :=
  let d := euclideanDistance query (descriptor candidate) in
  match best with
  | None => Some {| matchLabel := label candidate; distance := d |}
  | Some b =>
      if PrimFloat.ltb d (distance b)
      then Some {| matchLabel := label candidate; distance := d |}
      else Some b
  end.

(** Modelled from the spec: the closest enrolled descriptor, searched in
    the order in which the matcher was given its descriptors. *)
Definition matchDescriptor (matcher : FaceMatcher) (query : list float)
    : option FaceMatch :=
  foldl (closest query) None (labeledDescriptors matcher).

(** Modelled from the spec: [FaceMatcher.findBestMatch(queryDescriptor,
    threshold)]. When the minimum distance exceeds [threshold] the
    answer is "unknown" with that minimum distance, otherwise the
    matched label and its distance; with nothing enrolled the answer
    is "unknown" with the sentinel distance 1.0. *)
Definition findBestMatch (matcher : FaceMatcher) (query : list float)
    (threshold : float) : FaceMatch :=
  match matchDescriptor matcher query with
  | None => {| matchLabel := "unknown"; distance := 1%float |}
  | Some best =>
      if PrimFloat.ltb threshold (distance best)
      then {| matchLabel := "unknown"; distance := distance best |}
      else best
  end.
End Matcher.

End faceapi.

(** ** The recognizer *)

(** What [console.log] and [console.error] print. *)
Inductive event : Type :=
| LogEnrolled (label : string)
| LogRemoved (label : string)
| LogCleared
| LogMatcherUpdated (count : nat)
| LogLoaded (count : nat)
| ErrorUpdatingMatcher
| ErrorLoading.

(** The fields of a [FaceRecognizer], the [localStorage] item
    ["enrolledFaces"] and the console. *)
Record world : Type := {
  enrolledFaces : gmap string jsval;
  faceMatcher : option faceapi.FaceMatcher;
  localStorage : option storedText;
  console : list event
}.

Definition setEnrolledFaces (m : gmap string jsval) (w : world) : world :=
  {| enrolledFaces := m; faceMatcher := faceMatcher w;
     localStorage := localStorage w; console := console w |}.

Definition setFaceMatcher (fm : option faceapi.FaceMatcher) (w : world) : world :=
  {| enrolledFaces := enrolledFaces w; faceMatcher := fm;
     localStorage := localStorage w; console := console w |}.

Definition setItem (text : storedText) (w : world) : world :=
  {| enrolledFaces := enrolledFaces w; faceMatcher := faceMatcher w;
     localStorage := Some text; console := console w |}.

Definition print (e : event) (w : world) : world :=
  {| enrolledFaces := enrolledFaces w; faceMatcher := faceMatcher w;
     localStorage := localStorage w; console := console w ++ [e] |}.

Record detection : Type := {
  descriptor : option (list float)
}.

Record RecognitionResult : Type := {
  label : string;
  distance : float;
  isMatch : bool
}.

(** What [getStats] returns. *)
Record stats : Type := {
  enrolledCount : nat;
  hasEnrolledFaces : bool;
  enrolledLabels : list string
}.

(** The record [enrollFace] stores: [Array.from(faceDescriptor)] is a new
    array of the numbers of the typed array. *)
Definition faceData (faceDescriptor : list float) (label enrolledAt : string) : jsval :=
  JObj [("descriptor", JArr (map JNum faceDescriptor));
        ("label", JStr label);
        ("enrolledAt", JStr enrolledAt)].

(** [String.prototype.trim]: white space and line terminators among the
    code units below 256. *)
Definition isWhiteSpace (c : ascii) : bool :=
  let n := nat_of_ascii c in
  bool_decide (n = 9 ∨ n = 10 ∨ n = 11 ∨ n = 12 ∨ n = 13 ∨ n = 32 ∨ n = 160).

Fixpoint trimStart (cs : list ascii) : list ascii :=
  match cs with
  | [] => []
  | c :: rest => if isWhiteSpace c then trimStart rest else cs
  end.

Definition trim (s : string) : string :=
  string_of_list_ascii
    (rev (trimStart (rev (trimStart (String.list_ascii_of_string s))))).

(** The default of [recognizeFaces]'s second parameter. *)
Definition defaultThreshold : float := 0.6%float.

Section Recognizer.
Context {platform : Platform}.

(** The callback of [updateFaceMatcher]'s [map], applied to one entry
    [[label, faceData]] of the [Map]. *)
Definition labeledDescriptor (entry : string * jsval)
    : outcome faceapi.LabeledFaceDescriptors :=
  v ← getProp entry.2 "descriptor";
  d ← newFloat32Array v;
  Returned {| faceapi.label := entry.1; faceapi.descriptor := d |}.

Definition updateFaceMatcher (w : world) : world :=
  if bool_decide (size (enrolledFaces w) = 0) then setFaceMatcher None w
  else
    match mapOutcome labeledDescriptor (map_to_list (enrolledFaces w)) with
    | Returned labeledDescriptors =>
        print (LogMatcherUpdated (length labeledDescriptors))
          (setFaceMatcher
             (Some {| faceapi.labeledDescriptors := labeledDescriptors;
                      faceapi.distanceThreshold := 0.6%float |}) w)
    | Thrown _ => setFaceMatcher None (print ErrorUpdatingMatcher w)
    end.

(** [localStorage.setItem] is taken to accept the text it is given; the
    text is the one [JSON.stringify] writes for the object. *)
Definition saveEnrolledFaces (w : world) : world :=
  let facesData := Object_fromEntries (enrolledFaces w) in
  setItem (JsonText (jsonImage facesData)) w.

(** The [try] block of [loadEnrolledFaces]. Both calls that can throw come
    before the first assignment. *)
Definition loadEnrolledFaces_try (w : world) : outcome world :=
  let saved := localStorage w in
  match saved with
  | Some text =>
      if truthySaved saved then
        facesData ← JSON_parse text;
        entries ← Object_entries facesData;
        let w1 := updateFaceMatcher (setEnrolledFaces (Map_of_entries entries) w) in
        Returned (print (LogLoaded (size (enrolledFaces w1))) w1)
      else Returned w
  | None => Returned w
  end.

Definition loadEnrolledFaces (w : world) : world :=
  match loadEnrolledFaces_try w with
  | Returned w' => w'
  | Thrown _ => setEnrolledFaces ∅ (print ErrorLoading w)
  end.

(** [new FaceRecognizer()] in a browser whose [localStorage] item is
    [storage]. *)
Definition newFaceRecognizer (storage : option storedText) : world :=
  loadEnrolledFaces
    {| enrolledFaces := ∅; faceMatcher := None;
       localStorage := storage; console := [] |}.

(** [enrolledAt] is the value of [new Date().toISOString()]. *)
Definition enrollFace (faceDescriptor : option (list float))
    (label enrolledAt : string) (w : world) : outcome bool * world :=
  match faceDescriptor with
  | Some numbers =>
      if negb (truthyDescriptor faceDescriptor) || negb (truthyString label)
      then (Thrown "Face descriptor and label are required", w)
      else
        let w1 := setEnrolledFaces
                    (<[label := faceData numbers label enrolledAt]> (enrolledFaces w)) w in
        let w2 := updateFaceMatcher w1 in
        let w3 := saveEnrolledFaces w2 in
        (Returned true, print (LogEnrolled label) w3)
  | None => (Thrown "Face descriptor and label are required", w)
  end.

Definition removeFace (label : string) (w : world) : bool * world :=
  if bool_decide (is_Some (enrolledFaces w !! label)) then
    let w1 := setEnrolledFaces (delete label (enrolledFaces w)) w in
    let w2 := updateFaceMatcher w1 in
    let w3 := saveEnrolledFaces w2 in
    (true, print (LogRemoved label) w3)
  else (false, w).

Definition clearAllFaces (w : world) : world :=
  print LogCleared
    (saveEnrolledFaces (setFaceMatcher None (setEnrolledFaces ∅ w))).

Definition recognize (matcher : faceapi.FaceMatcher) (confidenceThreshold : float)
    (d : detection) : RecognitionResult :=
  match descriptor d with
  | Some query =>
      let bestMatch := faceapi.findBestMatch matcher query confidenceThreshold in
      {| label := faceapi.matchLabel bestMatch;
         distance := faceapi.distance bestMatch;
         isMatch := negb (String.eqb (faceapi.matchLabel bestMatch) "unknown") |}
  | None => {| label := "unknown"; distance := 1%float; isMatch := false |}
  end.

Definition recognizeFaces (detections : list detection)
    (confidenceThreshold : float) (w : world) : list RecognitionResult :=
  match faceMatcher w with
  | None => []
  | Some matcher =>
      if bool_decide (length detections = 0) then []
      else map (recognize matcher confidenceThreshold) detections
  end.

Definition getEnrolledFaces (w : world) : list string :=
  (map_to_list (enrolledFaces w)).*1.

Definition getEnrollmentCount (w : world) : nat := size (enrolledFaces w).

(** [timestamp] is the value of [Date.now()] and [random] that of
    [Math.floor(Math.random() * 1000)]. *)
Definition generateLabel (timestamp random : N) : string :=
  "Person_" +:+ pretty timestamp +:+ "_" +:+ pretty random.

Definition getStats (w : world) : stats :=
  {| enrolledCount := size (enrolledFaces w);
     hasEnrolledFaces := bool_decide (0 < size (enrolledFaces w));
     enrolledLabels := getEnrolledFaces w |}.

(** [answer] is what [prompt] returns ([None] when the dialog is
    cancelled) and [overwrite] what [confirm] returns if it is asked. *)
Definition enrollFaceWithPrompt (faceDescriptor : option (list float))
    (answer : option string) (overwrite : bool) (enrolledAt : string)
    (w : world) : outcome bool * world :=
  match answer with
  | None => (Thrown "Name is required for face enrollment", w)
  | Some label =>
      if negb (truthyString label) || String.eqb (trim label) ""
      then (Thrown "Name is required for face enrollment", w)
      else if bool_decide (is_Some (enrolledFaces w !! trim label)) && negb overwrite
      then (Thrown "Enrollment cancelled", w)
      else enrollFace faceDescriptor (trim label) enrolledAt w
  end.

(** One call of the public interface and the state it leaves. *)
Inductive call : Type :=
| CallEnroll (faceDescriptor : option (list float)) (label enrolledAt : string)
| CallEnrollWithPrompt (faceDescriptor : option (list float))
    (answer : option string) (overwrite : bool) (enrolledAt : string)
| CallRemove (label : string)
| CallClearAll.

Definition perform (c : call) (w : world) : world :=
  match c with
  | CallEnroll d label enrolledAt => (enrollFace d label enrolledAt w).2
  | CallEnrollWithPrompt d answer overwrite enrolledAt =>
      (enrollFaceWithPrompt d answer overwrite enrolledAt w).2
  | CallRemove label => (removeFace label w).2
  | CallClearAll => clearAllFaces w
  end.

(** The states of a recognizer: constructed over any stored text, then
    driven through its public interface. *)
Inductive reachable : world -> Prop :=
| reachable_new storage : reachable (newFaceRecognizer storage)
| reachable_call c w : reachable w -> reachable (perform c w).

(** The matcher is the one built from the enrolled faces. *)
Definition inSync (w : world) : Prop :=
  faceMatcher w = faceMatcher (updateFaceMatcher w).

End Recognizer.

(** ** Replaying enroll and remove operations *)

Inductive operation : Type :=
| Enroll (faceDescriptor : option (list float)) (label enrolledAt : string)
| Remove (label : string).

Definition labelOf (op : operation) : string :=
  match op with
  | Enroll _ label _ => label
  | Remove label => label
  end.

(** An enroll call that throws has not enrolled anything. *)
Definition completes (op : operation) : bool :=
  match op with
  | Enroll faceDescriptor label _ =>
      truthyDescriptor faceDescriptor && truthyString label
  | Remove _ => true
  end.

Definition isEnroll (op : operation) : bool :=
  match op with
  | Enroll _ _ _ => true
  | Remove _ => false
  end.

Section Replay.
Context {platform : Platform}.

Definition apply (w : world) (op : operation) : world :=
  match op with
  | Enroll faceDescriptor label enrolledAt =>
      (enrollFace faceDescriptor label enrolledAt w).2
  | Remove label => (removeFace label w).2
  end.

Definition replay (ops : list operation) (w : world) : world :=
  foldl apply w ops.
End Replay.

(** The last operation of the sequence that completed on [label]. *)
Definition lastOperationOn (label : string) (ops : list operation) : option operation :=
  last (filter (fun op => completes op && String.eqb (labelOf op) label) ops).

(** A recognizer with nothing enrolled and nothing stored. *)
Definition emptyWorld : world :=
  {| enrolledFaces := ∅; faceMatcher := None; localStorage := None; console := [] |}.

(** ** A platform for the closed examples

    The examples build typed arrays only from arrays of numbers that are
    float32 values, on which [new Float32Array] returns the same numbers;
    the distance is the Euclidean one. *)

Definition demoFloat32Array (v : option jsval) : outcome (list float) :=
  match v with
  | Some (JArr xs) =>
      mapOutcome (fun x => match x with
                           | JNum n => Returned n
                           | _ => Thrown "not in the examples"
                           end) xs
  | _ => Thrown "not in the examples"
  end.

Fixpoint sumSquares (xs ys : list float) : float :=
  match xs, ys with
  | x :: xs', y :: ys' =>
      PrimFloat.add (PrimFloat.mul (PrimFloat.sub x y) (PrimFloat.sub x y))
                    (sumSquares xs' ys')
  | _, _ => PrimFloat.zero
  end.

Definition demoPlatform : Platform :=
  {| newFloat32Array := demoFloat32Array;
     euclideanDistance := fun xs ys => PrimFloat.sqrt (sumSquares xs ys) |}.

(** ** Persistence round trip *)


Section RoundTrip.
Context {platform : Platform}.

(** [save()] on [w], then a fresh recognizer over what was stored. *)
Definition saveThenLoad (w : world) : world :=
  newFaceRecognizer (localStorage (saveEnrolledFaces w)).
End RoundTrip.

(** ** Descriptors as objects

    The model above keeps arrays by value. Here the arrays of numbers are
    objects in a heap, so that two references to one array can be told from
    two arrays with equal contents: the caller of [enrollFace] holds a
    reference to its typed array and can write to it afterwards. *)

Module Heap.

Definition loc : Type := positive.

(** The object [enrollFace] stores; [descriptor] refers to an array. *)
Record faceRecord : Type := {
  descriptor : loc;
  label : string;
  enrolledAt : string
}.

(** [faceMatcher] holds, for every label, a reference to the typed array it
    was given. *)
Record state : Type := {
  heap : gmap loc (list float);
  enrolledFaces : gmap string faceRecord;
  faceMatcher : option (list (string * loc));
  localStorage : option storedText
}.

Definition contents (h : gmap loc (list float)) (l : loc) : list float :=
  default [] (h !! l).

(** A new array object holding [numbers]. *)
Definition alloc (numbers : list float) (h : gmap loc (list float))
    : loc * gmap loc (list float) :=
  let l := fresh (dom h) in (l, <[l := numbers]> h).

(** The value of a stored record, its array read through the heap. *)
Definition recordValue (h : gmap loc (list float)) (r : faceRecord) : jsval :=
  faceData (contents h (descriptor r)) (label r) (enrolledAt r).

Section Recognizer.
Context {platform : Platform}.

(** The [map] of [updateFaceMatcher]: every entry gets a typed array of its
    own, [new Float32Array(faceData.descriptor)]. *)
Fixpoint labeledDescriptors (entries : list (string * faceRecord))
    (h : gmap loc (list float))
    : outcome (list (string * loc) * gmap loc (list float)) :=
  match entries with
  | [] => Returned ([], h)
  | entry :: rest =>
      d ← newFloat32Array (Some (JArr (map JNum (contents h (descriptor entry.2)))));
      done ← labeledDescriptors rest (alloc d h).2;
      Returned ((entry.1, (alloc d h).1) :: done.1, done.2)
  end.

Definition updateFaceMatcher (s : state) : state :=
  if bool_decide (size (enrolledFaces s) = 0)
  then {| heap := heap s; enrolledFaces := enrolledFaces s;
          faceMatcher := None; localStorage := localStorage s |}
  else
    match labeledDescriptors (map_to_list (enrolledFaces s)) (heap s) with
    | Returned (matcher, h) =>
        {| heap := h; enrolledFaces := enrolledFaces s;
           faceMatcher := Some matcher; localStorage := localStorage s |}
    | Thrown _ =>
        {| heap := heap s; enrolledFaces := enrolledFaces s;
           faceMatcher := None; localStorage := localStorage s |}
    end.

Definition saveEnrolledFaces (s : state) : state :=
  let facesData := Object_fromEntries (recordValue (heap s) <$> enrolledFaces s) in
  {| heap := heap s; enrolledFaces := enrolledFaces s;
     faceMatcher := faceMatcher s;
     localStorage := Some (JsonText (jsonImage facesData)) |}.

(** [faceDescriptor] is a reference to the caller's typed array, or
    [None] for [null] and [undefined]; [Array.from] makes a new array. *)
Definition enrollFace (faceDescriptor : option loc) (label enrolledAt : string)
    (s : state) : outcome bool * state :=
  match faceDescriptor with
  | Some caller =>
      if negb (truthyString label)
      then (Thrown "Face descriptor and label are required", s)
      else
        let copy := alloc (contents (heap s) caller) (heap s) in
        let faceData := {| descriptor := copy.1; label := label;
                           enrolledAt := enrolledAt |} in
        let s1 := {| heap := copy.2;
                     enrolledFaces := <[label := faceData]> (enrolledFaces s);
                     faceMatcher := faceMatcher s;
                     localStorage := localStorage s |} in
        (Returned true, saveEnrolledFaces (updateFaceMatcher s1))
  | None => (Thrown "Face descriptor and label are required", s)
  end.
End Recognizer.

(** The caller overwrites the elements of the array at [l]. *)
Definition write (l : loc) (numbers : list float) (s : state) : state :=
  {| heap := <[l := numbers]> (heap s); enrolledFaces := enrolledFaces s;
     faceMatcher := faceMatcher s; localStorage := localStorage s |}.

(** What recognition and persistence see of a state. *)
Definition storedDescriptor (s : state) (l : string) : option (list float) :=
  r ← enrolledFaces s !! l; Some (contents (heap s) (descriptor r)).

Definition matcherDescriptors (s : state) : option (list (string * list float)) :=
  map (fun ld => (ld.1, contents (heap s) ld.2)) <$> faceMatcher s.

(** The state by value: what the first model calls the enrolled faces. *)
Definition storeValue (s : state) : gmap string jsval :=
  recordValue (heap s) <$> enrolledFaces s.

(** Every stored record refers to an array of the heap. *)
Definition wellFormed (s : state) : Prop :=
  forall (l : string) (r : faceRecord),
    enrolledFaces s !! l = Some r -> descriptor r ∈ dom (heap s).

End Heap.

(** ** The camera manager ([src/camera-manager.js])

    The methods are [async]; each is modelled as running to its end before
    another call begins. What the browser answers is an argument of the
    call: [supported] for [navigator.mediaDevices.getUserMedia] being
    there, [enumerate] for the result of [enumerateDevices] and
    [getUserMedia] for the answer to a request. A stream is known by a
    number, and [liveStreams] holds the streams with a running track. *)

Module CameraManager.

Record MediaDeviceInfo : Type := {
  deviceId : string;
  kind : string;
  label : string
}.

(** The values of the properties of a constraints object. *)
Inductive constraint : Type :=
| Range (ideal max : nat)
| Text (value : string)
| Exact (value : string).

(** What [getUserMedia] is asked. *)
Record request : Type := {
  video : gmap string constraint;
  audio : bool
}.

(** What [getUserMedia] answers: a new stream, or a rejection with the
    name and the message of its error. *)
Inductive answer : Type :=
| Granted
| Rejected (name message : string).

(** The fields of a [CameraManager], and of the browser the streams that
    run and the number of streams made so far. *)
Record camera : Type := {
  stream : option nat;
  currentDeviceId : option string;
  availableDevices : list MediaDeviceInfo;
  isActive : bool;
  liveStreams : gset nat;
  streamsMade : nat
}.

(** [new CameraManager()] in a browser with no stream running. *)
Definition newCameraManager : camera :=
  {| stream := None; currentDeviceId := None; availableDevices := [];
     isActive := false; liveStreams := ∅; streamsMade := 0 |}.

(** [enumerate] is what [navigator.mediaDevices.enumerateDevices()] gives. *)
Definition getAvailableDevices (enumerate : outcome (list MediaDeviceInfo))
    (c : camera) : outcome (list MediaDeviceInfo) * camera :=
  match enumerate with
  | Returned devices =>
      let cameras := filter (fun device => kind device = "videoinput") devices in
      (Returned cameras,
       {| stream := stream c; currentDeviceId := currentDeviceId c;
          availableDevices := cameras; isActive := isActive c;
          liveStreams := liveStreams c; streamsMade := streamsMade c |})
  | Thrown _ => (Thrown "Unable to access camera devices", c)
  end.

(** Stopping every track of the stream ends it. *)
Definition stopCamera (c : camera) : camera :=
  match stream c with
  | Some s =>
      {| stream := None; currentDeviceId := currentDeviceId c;
         availableDevices := availableDevices c; isActive := false;
         liveStreams := liveStreams c ∖ {[s]}; streamsMade := streamsMade c |}
  | None => c
  end.

Definition defaultConstraints : gmap string constraint :=
  {[ "width" := Range 640 1280; "height" := Range 480 720;
     "frameRate" := Range 30 60; "facingMode" := Text "user" ]}.

(** [if (deviceId)]: [null] and the empty string are falsy. *)
Definition truthyDeviceId (deviceId : option string) : bool :=
  match deviceId with
  | Some id => truthyString id
  | None => false
  end.

(** The object [streamConstraints] of [startCamera]: the properties of
    [constraints] override the defaults, and a device that is asked for
    replaces [facingMode]. *)
Definition streamConstraints (deviceId : option string)
    (constraints : gmap string constraint) : request :=
  let videoConstraints := constraints ∪ defaultConstraints in
  {| video := match deviceId with
              | Some id =>
                  if truthyString id
                  then delete "facingMode" (<["deviceId" := Exact id]> videoConstraints)
                  else videoConstraints
              | None => videoConstraints
              end;
     audio := false |}.

(** The messages of the [catch] block of [startCamera]. *)
Definition startError (name message : string) : string :=
  if String.eqb name "NotAllowedError"
  then "Camera access denied. Please allow camera permissions and reload the page."
  else if String.eqb name "NotFoundError"
  then "No camera found. Please connect a camera and try again."
  else if String.eqb name "NotReadableError"
  then "Camera is being used by another application."
  else if String.eqb name "OverconstrainedError"
  then "Camera constraints cannot be satisfied."
  else "Camera error: " +:+ message.

Definition startCamera (supported : bool) (getUserMedia : request -> answer)
    (deviceId : option string) (constraints : gmap string constraint)
    (c : camera) : outcome nat * camera :=
  if negb supported
  then (Thrown "Camera access is not supported in this browser", c)
  else
    let c1 := stopCamera c in
    match getUserMedia (streamConstraints deviceId constraints) with
    | Granted =>
        let s := streamsMade c1 in
        (Returned s,
         {| stream := Some s; currentDeviceId := deviceId;
            availableDevices := availableDevices c1; isActive := true;
            liveStreams := {[s]} ∪ liveStreams c1; streamsMade := S s |})
    | Rejected name message => (Thrown (startError name message), c1)
    end.

(** [findIndex]: the first position whose element satisfies [p]. *)
Fixpoint findIndex {A} (p : A -> bool) (xs : list A) : option nat :=
  match xs with
  | [] => None
  | x :: rest => if p x then Some 0 else S <$> findIndex p rest
  end.

(** [device.deviceId === this.currentDeviceId]. *)
Definition isCurrent (c : camera) (device : MediaDeviceInfo) : bool :=
  match currentDeviceId c with
  | Some id => String.eqb (deviceId device) id
  | None => false
  end.

(** [(currentIndex + 1) % length], where [findIndex] gives -1 for "not
    found". *)
Definition nextIndex (currentIndex : option nat) (length : nat) : nat :=
  match currentIndex with
  | Some i => (i + 1) mod length
  | None => 0
  end.

Definition switchCamera (supported : bool)
    (enumerate : outcome (list MediaDeviceInfo))
    (getUserMedia : request -> answer) (c : camera) : outcome nat * camera :=
  match getAvailableDevices enumerate c with
  | (Returned _, c1) =>
      if bool_decide (length (availableDevices c1) <= 1)
      then (Thrown "No additional cameras available", c1)
      else
        let currentIndex := findIndex (isCurrent c1) (availableDevices c1) in
        match availableDevices c1
                !! nextIndex currentIndex (length (availableDevices c1)) with
        | Some nextDevice =>
            startCamera supported getUserMedia (Some (deviceId nextDevice)) ∅ c1
        | None => (Thrown "TypeError", c1)
        end
  | (Thrown message, c1) => (Thrown message, c1)
  end.

Definition getStream (c : camera) : option nat := stream c.

(** [this.isActive && this.stream && this.stream.active], as a condition. *)
Definition isActiveCamera (c : camera) : bool :=
  isActive c &&
  match stream c with
  | Some s => bool_decide (s ∈ liveStreams c)
  | None => false
  end.

Definition getCurrentDeviceInfo (c : camera) : option MediaDeviceInfo :=
  if truthyDeviceId (currentDeviceId c)
  then List.find (isCurrent c) (availableDevices c)
  else None.

(** A track of the stream [s] ends by itself (the device is unplugged). *)
Definition trackEnded (s : nat) (c : camera) : camera :=
  {| stream := stream c; currentDeviceId := currentDeviceId c;
     availableDevices := availableDevices c; isActive := isActive c;
     liveStreams := liveStreams c ∖ {[s]}; streamsMade := streamsMade c |}.

(** A call of the manager, with what the browser answers, or an event of
    the browser. *)
Inductive step : Type :=
| StartCamera (supported : bool) (getUserMedia : request -> answer)
    (deviceId : option string) (constraints : gmap string constraint)
| StopCamera
| SwitchCamera (supported : bool) (enumerate : outcome (list MediaDeviceInfo))
    (getUserMedia : request -> answer)
| GetAvailableDevices (enumerate : outcome (list MediaDeviceInfo))
| TrackEnded (s : nat).

Definition run (st : step) (c : camera) : camera :=
  match st with
  | StartCamera supported getUserMedia deviceId constraints =>
      (startCamera supported getUserMedia deviceId constraints c).2
  | StopCamera => stopCamera c
  | SwitchCamera supported enumerate getUserMedia =>
      (switchCamera supported enumerate getUserMedia c).2
  | GetAvailableDevices enumerate => (getAvailableDevices enumerate c).2
  | TrackEnded s => trackEnded s c
  end.

(** The states of a camera manager whose calls do not overlap. *)
Inductive reachable : camera -> Prop :=
| reachable_new : reachable newCameraManager
| reachable_run st c : reachable c -> reachable (run st c).

End CameraManager.

(** What holds between the calls of a camera manager: it is active exactly
    when it holds a stream, only the stream it holds can be running, and
    the number of a stream is below the count of the streams made. *)
Definition cameraSound (c : CameraManager.camera) : Prop :=
  (CameraManager.isActive c = true <-> is_Some (CameraManager.stream c)) /\
  (forall s, s ∈ CameraManager.liveStreams c -> CameraManager.stream c = Some s) /\
  (forall s, CameraManager.stream c = Some s -> s < CameraManager.streamsMade c).

(** Three cameras, and a browser that grants every request. *)
Definition threeCameras : list CameraManager.MediaDeviceInfo :=
  [ {| CameraManager.deviceId := "front"; CameraManager.kind := "videoinput";
       CameraManager.label := "Front" |};
    {| CameraManager.deviceId := "mic"; CameraManager.kind := "audioinput";
       CameraManager.label := "Microphone" |};
    {| CameraManager.deviceId := "back"; CameraManager.kind := "videoinput";
       CameraManager.label := "Back" |};
    {| CameraManager.deviceId := "usb"; CameraManager.kind := "videoinput";
       CameraManager.label := "" |} ].

Definition grantAll (r : CameraManager.request) : CameraManager.answer :=
  CameraManager.Granted.

Definition denyAll (r : CameraManager.request) : CameraManager.answer :=
  CameraManager.Rejected "NotAllowedError" "Permission denied".

(** A manager that runs the camera "front". *)
Definition onFront : CameraManager.camera :=
  (CameraManager.startCamera true grantAll (Some "front") ∅
     CameraManager.newCameraManager).2.

(** ** The face detector ([FaceDetector.detectFaces])

    [library] is what the chain of face-api.js calls gives: the detections,
    or an exception. An exception of the library is caught and becomes an
    empty list; a detector that is not initialized throws, and does so
    before anything is awaited. *)

Module FaceDetector.

Definition notInitialized : string := "Face detector not initialized".

Definition detectFaces (isInitialized : bool)
    (library : outcome (list detection)) : outcome (list detection) :=
  if negb isInitialized then Thrown notInitialized
  else
    match library with
    | Returned detections => Returned detections
    | Thrown _ => Returned []
    end.

End FaceDetector.

(** ** The application ([src/app.js])

    The processing loop runs over [requestAnimationFrame] and an [await]:
    [processFrame] is cut where it awaits [detectFaces], and the browser
    decides when a requested callback runs and when a detection is
    answered (a detector that is not initialized answers at once, with its
    exception). [scheduled] holds the callbacks requested and neither run
    nor cancelled, [detecting] counts the detections awaited. The canvas
    and the page are not modelled, except for what [alert] and the status
    line show. *)

Module App.

(** What the user is shown. *)
Inductive display : Type :=
| Alert (message : string)
| Status (message : string).

Record app : Type := {
  isProcessing : bool;
  animationId : option positive;
  confidenceThreshold : float;
  currentDetections : list detection;
  currentRecognitions : list RecognitionResult;
  detectorInitialized : bool;
  recognizer : world;
  scheduled : gset positive;
  detecting : nat;
  framesRequested : positive;
  shown : list display
}.

Definition setLoop (processing : bool) (id : option positive)
    (callbacks : gset positive) (awaited : nat) (requested : positive)
    (a : app) : app :=
  {| isProcessing := processing; animationId := id;
     confidenceThreshold := confidenceThreshold a;
     currentDetections := currentDetections a;
     currentRecognitions := currentRecognitions a;
     detectorInitialized := detectorInitialized a;
     recognizer := recognizer a;
     scheduled := callbacks; detecting := awaited;
     framesRequested := requested; shown := shown a |}.

Definition setResults (detections : list detection)
    (recognitions : list RecognitionResult) (a : app) : app :=
  {| isProcessing := isProcessing a; animationId := animationId a;
     confidenceThreshold := confidenceThreshold a;
     currentDetections := detections;
     currentRecognitions := recognitions;
     detectorInitialized := detectorInitialized a;
     recognizer := recognizer a;
     scheduled := scheduled a; detecting := detecting a;
     framesRequested := framesRequested a; shown := shown a |}.

Definition setRecognizer (w : world) (a : app) : app :=
  {| isProcessing := isProcessing a; animationId := animationId a;
     confidenceThreshold := confidenceThreshold a;
     currentDetections := currentDetections a;
     currentRecognitions := currentRecognitions a;
     detectorInitialized := detectorInitialized a;
     recognizer := w;
     scheduled := scheduled a; detecting := detecting a;
     framesRequested := framesRequested a; shown := shown a |}.

Definition show (d : display) (a : app) : app :=
  {| isProcessing := isProcessing a; animationId := animationId a;
     confidenceThreshold := confidenceThreshold a;
     currentDetections := currentDetections a;
     currentRecognitions := currentRecognitions a;
     detectorInitialized := detectorInitialized a;
     recognizer := recognizer a;
     scheduled := scheduled a; detecting := detecting a;
     framesRequested := framesRequested a; shown := shown a ++ [d] |}.

Definition showError (message : string) (a : app) : app :=
  show (Alert ("Error: " +:+ message)) a.

Definition setStatus (message : string) (a : app) : app :=
  show (Status message) a.

(** [cancelAnimationFrame(this.animationId); this.animationId = null]
    under [if (this.animationId)]. *)
Definition cancelFrame (a : app) : app :=
  match animationId a with
  | Some id =>
      setLoop (isProcessing a) None (scheduled a ∖ {[id]}) (detecting a)
        (framesRequested a) a
  | None => a
  end.

Section Loop.
Context {platform : Platform}.

(** [processFrame] from its [await] on, with what [detectFaces] gave. *)
Definition processFrame_resume (detected : outcome (list detection)) (a : app) : app :=
  let a1 :=
    match detected with
    | Returned detections =>
        setResults detections
          (if bool_decide (0 < length detections)
              && bool_decide (0 < getEnrollmentCount (recognizer a))
           then recognizeFaces detections (confidenceThreshold a) (recognizer a)
           else []) a
    | Thrown _ => a
    end in
  if isProcessing a1
  then setLoop true (Some (framesRequested a1))
         ({[framesRequested a1]} ∪ scheduled a1) (detecting a1)
         (Pos.succ (framesRequested a1)) a1
  else a1.

(** [processFrame] up to its [await]: [videoReady] tells that the video
    element is there and not paused. *)
Definition processFrame_start (videoReady : bool) (a : app) : app :=
  if negb (isProcessing a) || negb videoReady then a
  else if detectorInitialized a
  then setLoop (isProcessing a) (animationId a) (scheduled a)
         (S (detecting a)) (framesRequested a) a
  else processFrame_resume (FaceDetector.detectFaces false (Returned [])) a.

Definition startProcessing (videoReady : bool) (a : app) : app :=
  if isProcessing a then a
  else processFrame_start videoReady
         (setLoop true (animationId a) (scheduled a) (detecting a)
            (framesRequested a) a).

Definition stopProcessing (a : app) : app :=
  cancelFrame (setLoop false (animationId a) (scheduled a) (detecting a)
                 (framesRequested a) a).

Definition pauseProcessing (a : app) : app := cancelFrame a.

Definition resumeProcessing (videoReady : bool) (a : app) : app :=
  match animationId a with
  | None => if isProcessing a then processFrame_start videoReady a else a
  | Some _ => a
  end.

(** [answer], [overwrite] and [enrolledAt] are used by
    [enrollFaceWithPrompt], when it is reached. *)
Definition enrollFace (answer : option string) (overwrite : bool)
    (enrolledAt : string) (a : app) : app :=
  if bool_decide (length (currentDetections a) = 0)
  then showError "No faces detected. Please ensure your face is visible." a
  else if bool_decide (1 < length (currentDetections a))
  then showError "Multiple faces detected. Please ensure only one face is visible." a
  else
    match currentDetections a with
    | detection :: _ =>
        match descriptor detection with
        | Some faceDescriptor =>
            match enrollFaceWithPrompt (Some faceDescriptor) answer overwrite
                    enrolledAt (recognizer a) with
            | (Returned _, w) => setStatus "Face enrolled successfully" (setRecognizer w a)
            | (Thrown message, w) => showError message (setRecognizer w a)
            end
        | None => showError "Face descriptor not available. Please try again." a
        end
    | [] => a
    end.

(** [confirmed] is what [confirm] returns if it is asked. *)
Definition clearEnrolledFaces (confirmed : bool) (a : app) : app :=
  if bool_decide (getEnrollmentCount (recognizer a) = 0)
  then showError "No enrolled faces to clear." a
  else if confirmed
  then setStatus "All enrolled faces cleared"
         (setRecognizer (clearAllFaces (recognizer a)) a)
  else a.

(** What can happen to the application: a call of one of its methods, or
    the browser running a requested callback or answering a detection. *)
Inductive event : Type :=
| StartProcessing (videoReady : bool)
| StopProcessing
| PauseProcessing
| ResumeProcessing (videoReady : bool)
| FrameCallback (id : positive) (videoReady : bool)
| DetectionAnswered (library : outcome (list detection))
| EnrollFace (answer : option string) (overwrite : bool) (enrolledAt : string)
| ClearEnrolledFaces (confirmed : bool)
| ConfidenceInput (value : float)
| DetectorInitialized.

Definition step (e : event) (a : app) : app :=
  match e with
  | StartProcessing videoReady => startProcessing videoReady a
  | StopProcessing => stopProcessing a
  | PauseProcessing => pauseProcessing a
  | ResumeProcessing videoReady => resumeProcessing videoReady a
  | FrameCallback id videoReady =>
      if bool_decide (id ∈ scheduled a)
      then processFrame_start videoReady
             (setLoop (isProcessing a) (animationId a) (scheduled a ∖ {[id]})
                (detecting a) (framesRequested a) a)
      else a
  | DetectionAnswered library =>
      match detecting a with
      | S awaited =>
          processFrame_resume (FaceDetector.detectFaces true library)
            (setLoop (isProcessing a) (animationId a) (scheduled a) awaited
               (framesRequested a) a)
      | O => a
      end
  | EnrollFace answer overwrite enrolledAt => enrollFace answer overwrite enrolledAt a
  | ClearEnrolledFaces confirmed => clearEnrolledFaces confirmed a
  | ConfidenceInput value =>
      {| isProcessing := isProcessing a; animationId := animationId a;
         confidenceThreshold := value;
         currentDetections := currentDetections a;
         currentRecognitions := currentRecognitions a;
         detectorInitialized := detectorInitialized a;
         recognizer := recognizer a;
         scheduled := scheduled a; detecting := detecting a;
         framesRequested := framesRequested a; shown := shown a |}
  | DetectorInitialized =>
      {| isProcessing := isProcessing a; animationId := animationId a;
         confidenceThreshold := confidenceThreshold a;
         currentDetections := currentDetections a;
         currentRecognitions := currentRecognitions a;
         detectorInitialized := true;
         recognizer := recognizer a;
         scheduled := scheduled a; detecting := detecting a;
         framesRequested := framesRequested a; shown := shown a |}
  end.

(** [new FacialRecognitionApp()] over the stored text [storage]. *)
Definition newApp (storage : option storedText) : app :=
  {| isProcessing := false; animationId := None;
     confidenceThreshold := 0.6%float;
     currentDetections := []; currentRecognitions := [];
     detectorInitialized := false;
     recognizer := newFaceRecognizer storage;
     scheduled := ∅; detecting := 0; framesRequested := 1%positive;
     shown := [] |}.

Inductive reachable : app -> Prop :=
| reachable_new storage : reachable (newApp storage)
| reachable_step e a : reachable a -> reachable (step e a).

Definition isStart (e : event) : bool :=
  match e with
  | StartProcessing _ => true
  | _ => false
  end.
End Loop.

End App.

(** ** The upload manager ([src/upload-manager.js])

    Of the page, the model keeps what the code reads back or decides on:
    the text of the name input, whether the preview and the enrollment
    form are displayed, the message of the results panel and the alerts.
    [imageLoads] tells whether the image element fires [onload] (rather
    than [onerror]) and [library] is what the detection gives. *)

Module Upload.

Record file : Type := {
  fileType : string;
  fileSize : N
}.

Record upload : Type := {
  currentImage : bool;
  currentDetections : list detection;
  selectedFaceIndex : nat;
  faceName : string;
  previewShown : bool;
  formShown : bool;
  message : option (string * bool);
  detectorInitialized : bool;
  recognizer : world;
  alerts : list string;
  pendingResets : nat
}.

Definition showError (text : string) (u : upload) : upload :=
  {| currentImage := currentImage u; currentDetections := currentDetections u;
     selectedFaceIndex := selectedFaceIndex u; faceName := faceName u;
     previewShown := previewShown u; formShown := formShown u;
     message := message u; detectorInitialized := detectorInitialized u;
     recognizer := recognizer u;
     alerts := alerts u ++ ["Error: " +:+ text];
     pendingResets := pendingResets u |}.

Definition showDetectionResults (text : string) (isError : bool) (u : upload) : upload :=
  {| currentImage := currentImage u; currentDetections := currentDetections u;
     selectedFaceIndex := selectedFaceIndex u; faceName := faceName u;
     previewShown := previewShown u; formShown := formShown u;
     message := Some (text, isError); detectorInitialized := detectorInitialized u;
     recognizer := recognizer u; alerts := alerts u;
     pendingResets := pendingResets u |}.

Definition setForm (shown : bool) (u : upload) : upload :=
  {| currentImage := currentImage u; currentDetections := currentDetections u;
     selectedFaceIndex := selectedFaceIndex u; faceName := faceName u;
     previewShown := previewShown u; formShown := shown;
     message := message u; detectorInitialized := detectorInitialized u;
     recognizer := recognizer u; alerts := alerts u;
     pendingResets := pendingResets u |}.

Definition setDetections (detections : list detection) (u : upload) : upload :=
  {| currentImage := currentImage u; currentDetections := detections;
     selectedFaceIndex := selectedFaceIndex u; faceName := faceName u;
     previewShown := previewShown u; formShown := formShown u;
     message := message u; detectorInitialized := detectorInitialized u;
     recognizer := recognizer u; alerts := alerts u;
     pendingResets := pendingResets u |}.

Definition setRecognizer (w : world) (u : upload) : upload :=
  {| currentImage := currentImage u; currentDetections := currentDetections u;
     selectedFaceIndex := selectedFaceIndex u; faceName := faceName u;
     previewShown := previewShown u; formShown := formShown u;
     message := message u; detectorInitialized := detectorInitialized u;
     recognizer := w; alerts := alerts u;
     pendingResets := pendingResets u |}.

(** The [onload] handler of [loadImage]. *)
Definition imageLoaded (u : upload) : upload :=
  {| currentImage := true; currentDetections := currentDetections u;
     selectedFaceIndex := selectedFaceIndex u; faceName := faceName u;
     previewShown := true; formShown := formShown u;
     message := message u; detectorInitialized := detectorInitialized u;
     recognizer := recognizer u; alerts := alerts u;
     pendingResets := pendingResets u |}.

(** [setTimeout(() => this.resetUpload(), 2000)]. *)
Definition scheduleReset (u : upload) : upload :=
  {| currentImage := currentImage u; currentDetections := currentDetections u;
     selectedFaceIndex := selectedFaceIndex u; faceName := faceName u;
     previewShown := previewShown u; formShown := formShown u;
     message := message u; detectorInitialized := detectorInitialized u;
     recognizer := recognizer u; alerts := alerts u;
     pendingResets := S (pendingResets u) |}.

Definition resetUpload (u : upload) : upload :=
  {| currentImage := false; currentDetections := [];
     selectedFaceIndex := selectedFaceIndex u; faceName := "";
     previewShown := false; formShown := false;
     message := None; detectorInitialized := detectorInitialized u;
     recognizer := recognizer u; alerts := alerts u;
     pendingResets := pendingResets u |}.

(** [loadModels] has succeeded. *)
Definition modelsLoaded (u : upload) : upload :=
  {| currentImage := currentImage u; currentDetections := currentDetections u;
     selectedFaceIndex := selectedFaceIndex u; faceName := faceName u;
     previewShown := previewShown u; formShown := formShown u;
     message := message u; detectorInitialized := true;
     recognizer := recognizer u; alerts := alerts u;
     pendingResets := pendingResets u |}.

(** The user has typed [text] into the name input. *)
Definition typeName (text : string) (u : upload) : upload :=
  {| currentImage := currentImage u; currentDetections := currentDetections u;
     selectedFaceIndex := selectedFaceIndex u; faceName := text;
     previewShown := previewShown u; formShown := formShown u;
     message := message u; detectorInitialized := detectorInitialized u;
     recognizer := recognizer u; alerts := alerts u;
     pendingResets := pendingResets u |}.

(** The double quote character. *)
Definition quote : string := String (Ascii.ascii_of_nat 34) EmptyString.

Definition maxFileSize : N := 10 * 1024 * 1024.

Section Manager.
Context {platform : Platform}.

Definition detectFacesInImage (library : outcome (list detection)) (u : upload) : upload :=
  let u1 := showDetectionResults "Detecting faces..." false u in
  match FaceDetector.detectFaces (detectorInitialized u1) library with
  | Returned detections =>
      let u2 := setDetections detections u1 in
      if bool_decide (length detections = 0)
      then setForm false
             (showDetectionResults
                "No faces detected in this image. Please try another image with clear faces."
                true u2)
      else
        setForm true
          (if bool_decide (1 < length detections)
           then showDetectionResults
                  (pretty (length detections)
                   +:+ " faces detected. The first face will be used for enrollment.")
                  false u2
           else showDetectionResults "1 face detected successfully!" false u2)
  | Thrown _ => showDetectionResults "Error detecting faces. Please try again." true u1
  end.

Definition handleFileSelect (f : file) (imageLoads : bool)
    (library : outcome (list detection)) (u : upload) : upload :=
  if negb (String.prefix "image/" (fileType f))
  then showError "Please select a valid image file" u
  else if (maxFileSize <? fileSize f)%N
  then showError "Image file is too large. Please select a file smaller than 10MB" u
  else
    let u1 := showDetectionResults "Processing image..." false u in
    if imageLoads then detectFacesInImage library (imageLoaded u1)
    else showError "Failed to load image" u1.

(** [overwrite] is what [confirm] returns if it is asked. *)
Definition enrollSelectedFace (overwrite : bool) (enrolledAt : string)
    (u : upload) : upload :=
  let name := trim (faceName u) in
  if negb (truthyString name)
  then showError "Please enter a name for this face" u
  else if bool_decide (length (currentDetections u) = 0)
  then showError "No face detected to enroll" u
  else
    match currentDetections u !! selectedFaceIndex u with
    | Some detection =>
        match descriptor detection with
        | Some faceDescriptor =>
            if bool_decide (name ∈ getEnrolledFaces (recognizer u)) && negb overwrite
            then u
            else
              match enrollFace (Some faceDescriptor) name enrolledAt (recognizer u) with
              | (Returned _, w) =>
                  scheduleReset
                    (showDetectionResults
                       ("Face enrolled successfully as " +:+ quote +:+ name
                        +:+ quote +:+ "!") false
                       (setRecognizer w u))
              | (Thrown text, w) => showError text (setRecognizer w u)
              end
        | None => showError "Face descriptor not available. Please try again." u
        end
    | None => showError "TypeError" u
    end.

(** [confirmed] is what [confirm] returns. *)
Definition removeFace (confirmed : bool) (name : string) (u : upload) : upload :=
  if confirmed then setRecognizer (removeFace name (recognizer u)).2 u else u.

(** [new UploadManager()] over the stored text [storage]. *)
Definition newUploadManager (storage : option storedText) : upload :=
  {| currentImage := false; currentDetections := [];
     selectedFaceIndex := 0; faceName := "";
     previewShown := false; formShown := false; message := None;
     detectorInitialized := false;
     recognizer := newFaceRecognizer storage; alerts := []; pendingResets := 0 |}.
End Manager.

End Upload.

(** ** The stored text follows the store *)

(** The stored text is the one written for the enrolled faces as they
    are now. *)
Definition persisted (w : world) : Prop :=
  localStorage w
  = Some (JsonText (jsonImage (Object_fromEntries (enrolledFaces w)))).

(** Two descriptors far from each other, and a heap in which the caller
    holds the first of them. *)
Definition alice : list float := [0.5%float; 0.25%float].
Definition bob : list float := [4%float; 3%float].

(** An application that has detected the descriptor [alice] while nothing
    was enrolled, has then enrolled it and keeps processing. *)
Definition appRun : list App.event :=
  [ App.DetectorInitialized; App.StartProcessing true;
    App.DetectionAnswered (Returned [ {| descriptor := Some alice |} ]);
    App.EnrollFace (Some " Alice ") false "t0";
    App.FrameCallback 1 true;
    App.DetectionAnswered (Returned [ {| descriptor := Some alice |};
                                      {| descriptor := None |} ]) ].

Definition callerHeap : Heap.state :=
  {| Heap.heap := {[ 1%positive := alice ]}; Heap.enrolledFaces := ∅;
     Heap.faceMatcher := None; Heap.localStorage := None |}.

(* ================================================================== *)
(** * Properties *)

Example jsonImage_demo :
  jsonImage (JObj [("a", JArr [JNum infinity; JNum (-0)%float; JNum 1.5%float]);
                   ("b", JStr "x")])
  = JObj [("a", JArr [JNull; JNum 0%float; JNum 1.5%float]); ("b", JStr "x")].
Proof. reflexivity. Qed.

Example entries_demo :
  Object_entries (JArr [JNull; JBool true]) = Returned [("0", JNull); ("1", JBool true)].
Proof. reflexivity. Qed.

Example generateLabel_demo : generateLabel 1700000000000 42 = "Person_1700000000000_42".
Proof. reflexivity. Qed.

Example trim_demo : trim "  Alice Bob
 " = "Alice Bob".
Proof. reflexivity. Qed.

Example enroll_demo :
  let w := (enrollFace (platform:=demoPlatform) (Some alice) "Alice" "t0" emptyWorld).2 in
  getEnrolledFaces w = ["Alice"] /\
  recognizeFaces (platform:=demoPlatform) [ {| descriptor := Some alice |}; {| descriptor := None |};
                   {| descriptor := Some bob |} ] 0.6%float w
  = [ {| label := "Alice"; distance := 0%float; isMatch := true |};
      {| label := "unknown"; distance := 1%float; isMatch := false |};
      {| label := "unknown"; distance := 4.4511234536912143%float; isMatch := false |} ].
Proof. vm_compute. split; reflexivity. Qed.

(** ** What each step leaves alone *)

Section Frames.
Context {platform : Platform}.

Lemma updateFaceMatcher_enrolledFaces w :
  enrolledFaces (updateFaceMatcher w) = enrolledFaces w.
Proof.
  unfold updateFaceMatcher. case_bool_decide; [done|].
  by destruct (mapOutcome _ _).
Qed.

Lemma updateFaceMatcher_localStorage w :
  localStorage (updateFaceMatcher w) = localStorage w.
Proof.
  unfold updateFaceMatcher. case_bool_decide; [done|].
  by destruct (mapOutcome _ _).
Qed.

(** The matcher that [updateFaceMatcher] builds is a function of the
    enrolled faces alone. *)
Lemma updateFaceMatcher_faceMatcher w1 w2 :
  enrolledFaces w1 = enrolledFaces w2 ->
  faceMatcher (updateFaceMatcher w1) = faceMatcher (updateFaceMatcher w2).
Proof.
  intros E. unfold updateFaceMatcher. rewrite E.
  case_bool_decide; [done|]. by destruct (mapOutcome _ _).
Qed.

Lemma updateFaceMatcher_empty w :
  enrolledFaces w = ∅ -> faceMatcher (updateFaceMatcher w) = None.
Proof.
  intros E. unfold updateFaceMatcher. rewrite E, map_size_empty.
  by rewrite bool_decide_eq_true_2.
Qed.

Lemma inSync_update w : inSync (updateFaceMatcher w).
Proof.
  unfold inSync. apply updateFaceMatcher_faceMatcher.
  by rewrite updateFaceMatcher_enrolledFaces.
Qed.

Lemma inSync_change w w' :
  enrolledFaces w' = enrolledFaces w -> faceMatcher w' = faceMatcher w ->
  inSync w -> inSync w'.
Proof.
  unfold inSync. intros Em Ef S. rewrite Ef, S.
  by apply updateFaceMatcher_faceMatcher.
Qed.

Lemma inSync_new storage : inSync (newFaceRecognizer storage).
Proof.
  unfold newFaceRecognizer, loadEnrolledFaces, loadEnrolledFaces_try; simpl.
  destruct storage as [text|]; [|done].
  destruct (truthySaved (Some text)); [|done].
  destruct (JSON_parse text) as [v|]; simpl; [|done].
  destruct (Object_entries v) as [entries|]; simpl; [|done].
  eapply inSync_change; [| |apply inSync_update]; done.
Qed.

Lemma inSync_enrollFace d label enrolledAt w :
  inSync w -> inSync (enrollFace d label enrolledAt w).2.
Proof.
  intros S. unfold enrollFace. destruct d as [numbers|]; [|done].
  destruct (_ || _); [done|]. simpl.
  eapply inSync_change; [| |apply inSync_update]; done.
Qed.

Lemma inSync_removeFace label w : inSync w -> inSync (removeFace label w).2.
Proof.
  intros S. unfold removeFace. case_bool_decide; [|done]. simpl.
  eapply inSync_change; [| |apply inSync_update]; done.
Qed.

Lemma inSync_perform c w : inSync w -> inSync (perform c w).
Proof.
  intros S. destruct c as [d l t|d answer overwrite t|l|]; simpl.
  - by apply inSync_enrollFace.
  - unfold enrollFaceWithPrompt. destruct answer as [l|]; [|done].
    destruct (_ || _); [done|]. destruct (_ && _); [done|].
    by apply inSync_enrollFace.
  - by apply inSync_removeFace.
  - done.
Qed.

Lemma reachable_inSync w : reachable w -> inSync w.
Proof.
  induction 1 as [storage|c w _ IH];
    [apply inSync_new | by apply inSync_perform].
Qed.

Lemma reachable_empty_no_matcher w :
  reachable w -> enrolledFaces w = ∅ -> faceMatcher w = None.
Proof.
  intros R E. rewrite (reachable_inSync w R).
  by apply updateFaceMatcher_empty.
Qed.
End Frames.

(** ** Recognition *)

Section Recognition.
Context {platform : Platform}.

(** The result the code pushes for one detection. *)
Lemma recognize_present matcher threshold query :
  recognize matcher threshold {| descriptor := Some query |}
  = let bestMatch := faceapi.findBestMatch matcher query threshold in
    {| label := faceapi.matchLabel bestMatch;
       distance := faceapi.distance bestMatch;
       isMatch := negb (String.eqb (faceapi.matchLabel bestMatch) "unknown") |}.
Proof. reflexivity. Qed.


(** C2, as amended: while nothing is enrolled there is no matcher, and
    [recognizeFaces] returns the empty sequence for every list of
    detections and every threshold: no result, not even "unknown", is
    produced and no distance is computed. *)
Theorem recognizeFaces_nothing_enrolled (w : world)
    (detections : list detection) (threshold : float) :
  reachable w -> enrolledFaces w = ∅ ->
  faceMatcher w = None /\ recognizeFaces detections threshold w = [].
Proof.
  intros R E. pose proof (reachable_empty_no_matcher w R E) as Hm.
  split; [done|]. unfold recognizeFaces. by rewrite Hm.
Qed.
End Recognition.



(** C2 fails as stated: on the empty store a query gets no answer at all,
    not the "unknown" sentinel. *)
Lemma recognizeFaces_empty_store_counterexample :
  enrolledFaces (newFaceRecognizer (platform:=demoPlatform) None) = ∅ /\
  recognizeFaces (platform:=demoPlatform) [ {| descriptor := Some alice |} ]
    0.6%float (newFaceRecognizer (platform:=demoPlatform) None)
  <> [ {| label := "unknown"; distance := 1%float; isMatch := false |} ].
Proof. split; [reflexivity|]. vm_compute. discriminate. Qed.

Lemma recognizeFaces_nothing_enrolled_witness :
  recognizeFaces (platform:=demoPlatform) [ {| descriptor := Some alice |} ] 0.6%float
    (perform (platform:=demoPlatform) (CallRemove "Alice")
       (newFaceRecognizer (platform:=demoPlatform) None)) = [].
Proof.
  refine (proj2 (recognizeFaces_nothing_enrolled (platform:=demoPlatform) _ _ _ _ _)).
  - apply reachable_call, reachable_new.
  - reflexivity.
Defined.

(** ** Enrolling and removing *)

Section Store.
Context {platform : Platform}.

Lemma truthyString_false s : truthyString s = false <-> s = "".
Proof.
  unfold truthyString. rewrite negb_false_iff. apply String.eqb_eq.
Qed.

Lemma truthyString_true s : truthyString s = true <-> s <> "".
Proof.
  unfold truthyString. rewrite negb_true_iff. apply String.eqb_neq.
Qed.

(** What a successful [enrollFace] leaves. *)
Lemma enrollFace_accepts numbers label enrolledAt w :
  label <> "" ->
  enrollFace (Some numbers) label enrolledAt w
  = (Returned true,
     print (LogEnrolled label)
       (saveEnrolledFaces
          (updateFaceMatcher
             (setEnrolledFaces
                (<[label := faceData numbers label enrolledAt]> (enrolledFaces w)) w)))).
Proof.
  intros Hl. unfold enrollFace.
  apply truthyString_true in Hl. by rewrite Hl.
Qed.

Lemma enrollFace_accepts_enrolledFaces numbers label enrolledAt w :
  label <> "" ->
  enrolledFaces (enrollFace (Some numbers) label enrolledAt w).2
  = <[label := faceData numbers label enrolledAt]> (enrolledFaces w).
Proof.
  intros Hl. rewrite enrollFace_accepts by done. simpl.
  apply updateFaceMatcher_enrolledFaces.
Qed.

(** C4, as amended: [enrollFace] throws whenever the label is empty or the
    descriptor is [null] or [undefined]; the exception reaches the caller
    and the enrolled faces, the matcher, the stored text and the console
    are as before. A descriptor that is present is accepted, also when it
    has no elements. *)
Theorem enrollFace_invalid_input (faceDescriptor : option (list float))
    (label enrolledAt : string) (w : world) :
  (faceDescriptor = None \/ label = "" ->
   enrollFace faceDescriptor label enrolledAt w
   = (Thrown "Face descriptor and label are required", w)) /\
  (is_Some faceDescriptor -> label <> "" ->
   (enrollFace faceDescriptor label enrolledAt w).1 = Returned true).
Proof.
  split.
  - intros [->| ->]; [done|]. unfold enrollFace.
    destruct faceDescriptor; [|done]. simpl. done.
  - intros [numbers ->] Hl. by rewrite enrollFace_accepts.
Qed.

End Store.

(** C4 fails as stated: an empty descriptor is enrolled, not rejected. *)
Lemma enrollFace_empty_descriptor_counterexample :
  let r := enrollFace (platform:=demoPlatform) (Some []) "Alice" "t0" emptyWorld in
  r.1 = Returned true /\
  enrolledFaces r.2 !! "Alice" = Some (faceData [] "Alice" "t0").
Proof. split; reflexivity. Qed.

Lemma enrollFace_invalid_input_witness :
  enrollFace (platform:=demoPlatform) None "Alice" "t0" emptyWorld
  = (Thrown "Face descriptor and label are required", emptyWorld) /\
  (enrollFace (platform:=demoPlatform) (Some alice) "Alice" "t0" emptyWorld).1
  = Returned true.
Proof.
  split.
  - apply (proj1 (enrollFace_invalid_input (platform:=demoPlatform) None "Alice" "t0" emptyWorld)).
    left. reflexivity.
  - apply (proj2 (enrollFace_invalid_input (platform:=demoPlatform) (Some alice) "Alice" "t0" emptyWorld)).
    + eexists. reflexivity.
    + discriminate.
Defined.


(** ** The threshold *)

(** The order of binary64 numbers is transitive. *)
Lemma SFltb_trans (x y z : spec_float) :
  SFltb x y = true -> SFltb y z = true -> SFltb x z = true.
Proof.
  unfold SFltb.
  destruct x as [sx|sx| |sx mx ex], y as [sy|sy| |sy my ey],
    z as [sz|sz| |sz mz ez]; simpl;
    repeat match goal with s : bool |- _ => destruct s end;
    simpl; try done.
  - destruct (Z.compare_spec ex ey), (Z.compare_spec ey ez),
      (Z.compare_spec ex ez); try done; try lia; subst.
    rewrite !Pos.compare_cont_spec. simpl.
    destruct (Pos.compare_spec mx my), (Pos.compare_spec my mz),
      (Pos.compare_spec mx mz); simpl; try done; lia.
  - destruct (Z.compare_spec ex ey), (Z.compare_spec ey ez),
      (Z.compare_spec ex ez); try done; try lia; subst.
    rewrite !Pos.compare_cont_spec. simpl.
    destruct (Pos.compare_spec mx my), (Pos.compare_spec my mz),
      (Pos.compare_spec mx mz); simpl; try done; lia.
Qed.

Lemma float_ltb_trans (x y z : float) :
  PrimFloat.ltb x y = true -> PrimFloat.ltb y z = true -> PrimFloat.ltb x z = true.
Proof. rewrite !ltb_spec. apply SFltb_trans. Qed.

Section Threshold.
Context {platform : Platform}.

(** Raising the threshold keeps a match of [findBestMatch]. *)
Lemma findBestMatch_monotone matcher query (T T' : float) :
  PrimFloat.ltb T T' = true ->
  faceapi.matchLabel (faceapi.findBestMatch matcher query T) <> "unknown" ->
  faceapi.findBestMatch matcher query T' = faceapi.findBestMatch matcher query T.
Proof.
  intros HT. unfold faceapi.findBestMatch.
  destruct (faceapi.matchDescriptor matcher query) as [best|]; [|done].
  destruct (PrimFloat.ltb T (faceapi.distance best)) eqn:Hlt; [done|].
  intros _. destruct (PrimFloat.ltb T' (faceapi.distance best)) eqn:Hlt'; [|done].
  by rewrite (float_ltb_trans _ _ _ HT Hlt') in Hlt.
Qed.

(** C3: if [recognizeFaces] matches a detection at threshold [T], with some
    label, then at every greater threshold [T'] it matches that detection
    with the same label (and reports the same distance). *)
Theorem recognizeFaces_threshold_monotone (w : world)
    (detections : list detection) (T T' : float) (i : nat) (r : RecognitionResult) :
  PrimFloat.ltb T T' = true ->
  recognizeFaces detections T w !! i = Some r ->
  isMatch r = true ->
  exists r' : RecognitionResult,
    recognizeFaces detections T' w !! i = Some r' /\
    isMatch r' = true /\ label r' = label r /\ distance r' = distance r.
Proof.
  intros HT Hr Hm. unfold recognizeFaces in *.
  destruct (faceMatcher w) as [matcher|]; [|by rewrite lookup_nil in Hr].
  case_bool_decide; [by rewrite lookup_nil in Hr|].
  rewrite list_lookup_fmap in *.
  destruct (detections !! i) as [d|]; [|done]. simpl in *.
  injection Hr as <-. eexists. split; [done|].
  unfold recognize in *. destruct (descriptor d) as [query|]; [|done].
  simpl in *. apply negb_true_iff, String.eqb_neq in Hm.
  by rewrite (findBestMatch_monotone _ _ _ _ HT Hm), (proj2 (String.eqb_neq _ _) Hm).
Qed.
End Threshold.

Lemma recognizeFaces_threshold_monotone_witness :
  let w := (enrollFace (platform:=demoPlatform) (Some alice) "Alice" "t0" emptyWorld).2 in
  let detections := [ {| descriptor := Some [0.5%float; 0.5%float] |} ] in
  exists r' : RecognitionResult,
    recognizeFaces (platform:=demoPlatform) detections 0.6%float w !! 0%nat = Some r' /\
    isMatch r' = true /\ label r' = "Alice" /\ distance r' = 0.25%float.
Proof.
  refine (recognizeFaces_threshold_monotone (platform:=demoPlatform) _ _
            0.3%float 0.6%float 0
            {| label := "Alice"; distance := 0.25%float; isMatch := true |} _ _ _);
    reflexivity.
Defined.

(** ** One enrolled face per label *)

Lemma mapOutcome_Returned {A B} (f : A -> outcome B) (xs : list A) (ys : list B) :
  mapOutcome f xs = Returned ys ->
  Forall2 (fun x y => f x = Returned y) xs ys.
Proof.
  revert ys. induction xs as [|x xs IH]; intros ys; simpl.
  - intros [= <-]. constructor.
  - destruct (f x) as [y|] eqn:Hx; simpl; [|done].
    destruct (mapOutcome f xs) as [ys'|]; simpl; [|done].
    intros [= <-]. constructor; [done|]. by apply IH.
Qed.

Section Overwrite.
Context {platform : Platform}.

Lemma getEnrolledFaces_NoDup w : NoDup (getEnrolledFaces w).
Proof. apply NoDup_fst_map_to_list. Qed.

Lemma elem_of_getEnrolledFaces w (l : string) :
  l ∈ getEnrolledFaces w <-> is_Some (enrolledFaces w !! l).
Proof.
  unfold getEnrolledFaces. rewrite list_elem_of_fmap. split.
  - intros [[k v] [-> Hin]]. apply elem_of_map_to_list in Hin. by exists v.
  - intros [v Hv]. exists (l, v). split; [done|]. by apply elem_of_map_to_list.
Qed.

(** Every descriptor of a matcher was built from the entry of its label. *)
Lemma updateFaceMatcher_built w matcher :
  faceMatcher (updateFaceMatcher w) = Some matcher ->
  Forall2 (fun entry ld => labeledDescriptor entry = Returned ld)
    (map_to_list (enrolledFaces w)) (faceapi.labeledDescriptors matcher).
Proof.
  unfold updateFaceMatcher. case_bool_decide; [done|].
  destruct (mapOutcome _ _) as [lds|] eqn:Hmap; simpl; [|done].
  intros [= <-]. simpl. by apply mapOutcome_Returned.
Qed.

Lemma labeledDescriptor_label entry ld :
  labeledDescriptor entry = Returned ld -> faceapi.label ld = entry.1.
Proof.
  unfold labeledDescriptor. destruct (getProp _ _) as [v|]; simpl; [|done].
  destruct (newFloat32Array v); simpl; [|done]. by intros [= <-].
Qed.

Lemma matcher_labels w matcher :
  faceMatcher (updateFaceMatcher w) = Some matcher ->
  faceapi.label <$> faceapi.labeledDescriptors matcher = getEnrolledFaces w.
Proof.
  intros Hm. apply updateFaceMatcher_built in Hm. unfold getEnrolledFaces.
  induction Hm as [|entry ld entries lds Hld _ IH]; [done|].
  simpl. f_equal; [by apply labeledDescriptor_label | done].
Qed.



End Overwrite.


(** After the overwrite the old descriptor is not matched any more and the
    new one is. *)
Example overwrite_demo :
  let w1 := (enrollFace (platform:=demoPlatform) (Some alice) "Alice" "t0" emptyWorld).2 in
  let w2 := (enrollFace (platform:=demoPlatform) (Some bob) "Alice" "t1" w1).2 in
  map isMatch (recognizeFaces (platform:=demoPlatform)
                 [ {| descriptor := Some alice |}; {| descriptor := Some bob |} ]
                 0.6%float w1) = [true; false] /\
  map isMatch (recognizeFaces (platform:=demoPlatform)
                 [ {| descriptor := Some alice |}; {| descriptor := Some bob |} ]
                 0.6%float w2) = [false; true] /\
  getEnrolledFaces w2 = ["Alice"].
Proof. vm_compute. repeat split; reflexivity. Qed.

(** ** Replaying a sequence of operations *)

Section Sequences.
Context {platform : Platform}.

Lemma enrollFace_rejects_enrolledFaces d l t w :
  truthyDescriptor d && truthyString l = false ->
  (enrollFace d l t w).2 = w.
Proof.
  unfold enrollFace. destruct d as [numbers|]; [|done]. simpl.
  by intros ->.
Qed.

Lemma removeFace_enrolledFaces l w :
  enrolledFaces (removeFace l w).2 = delete l (enrolledFaces w).
Proof.
  unfold removeFace. case_bool_decide as Hs; simpl.
  - apply updateFaceMatcher_enrolledFaces.
  - symmetry. apply delete_id. by apply eq_None_not_Some.
Qed.

(** The effect of one operation on the presence of a label. *)
Lemma apply_enrolled w op (l : string) :
  is_Some (enrolledFaces (apply w op) !! l) <->
  if completes op && String.eqb (labelOf op) l then isEnroll op = true
  else is_Some (enrolledFaces w !! l).
Proof.
  destruct op as [d l' t|l']; simpl.
  - destruct (truthyDescriptor d && truthyString l') eqn:Hc; simpl.
    + apply andb_true_iff in Hc as [Hd Hl']. destruct d as [numbers|]; [|done].
      apply truthyString_true in Hl'.
      rewrite enrollFace_accepts_enrolledFaces by done.
      destruct (String.eqb_spec l' l) as [->|Hne].
      * rewrite lookup_insert_eq. split; [done|by eexists].
      * by rewrite lookup_insert_ne.
    + by rewrite enrollFace_rejects_enrolledFaces.
  - rewrite removeFace_enrolledFaces.
    destruct (String.eqb_spec l' l) as [->|Hne].
    + rewrite lookup_delete_eq. split; [by intros [? ?]|done].
    + by rewrite lookup_delete_ne.
Qed.

Lemma lastOperationOn_snoc (l : string) ops op :
  lastOperationOn l (ops ++ [op])
  = if completes op && String.eqb (labelOf op) l then Some op
    else lastOperationOn l ops.
Proof.
  unfold lastOperationOn. rewrite filter_app, filter_cons, filter_nil.
  case_decide as Hc.
  - apply Is_true_true in Hc. rewrite Hc. by rewrite last_snoc.
  - apply Is_true_false in Hc. rewrite Hc. by rewrite app_nil_r.
Qed.

(** C6: after any sequence of enroll and remove operations on a store that
    was empty, [getEnrolledFaces] lists, each once, exactly the labels whose
    last operation was an enroll (an enroll call that throws is not an
    operation on the store). *)
Theorem replay_lists_last_enrolled (ops : list operation) (w0 : world) :
  enrolledFaces w0 = ∅ ->
  NoDup (getEnrolledFaces (replay ops w0)) /\
  forall l : string,
    l ∈ getEnrolledFaces (replay ops w0) <->
    exists op, lastOperationOn l ops = Some op /\ isEnroll op = true.
Proof.
  intros Hempty. split; [apply getEnrolledFaces_NoDup|].
  intros l. rewrite elem_of_getEnrolledFaces.
  induction ops as [|op ops IH] using rev_ind.
  - simpl. rewrite Hempty, lookup_empty. split; [by intros [? ?]|].
    by intros (op & Hop & _).
  - unfold replay in *. rewrite foldl_snoc, apply_enrolled, lastOperationOn_snoc.
    destruct (completes op && String.eqb (labelOf op) l).
    + split; [by exists op|]. by intros (op' & [= <-] & Hen).
    + done.
Qed.
End Sequences.

Lemma replay_lists_last_enrolled_witness :
  let ops := [Enroll (Some alice) "Alice" "t0"; Enroll (Some bob) "Bob" "t1";
              Remove "Alice"; Enroll None "Alice" "t2"] in
  "Bob" ∈ getEnrolledFaces (replay (platform:=demoPlatform) ops emptyWorld) /\
  ~ "Alice" ∈ getEnrolledFaces (replay (platform:=demoPlatform) ops emptyWorld).
Proof.
  intros ops.
  pose proof (proj2 (replay_lists_last_enrolled (platform:=demoPlatform) ops emptyWorld
                       eq_refl)) as Hlist.
  split.
  - apply Hlist. eexists. split; reflexivity.
  - intros Hin. apply Hlist in Hin as (op & Hop & Hen).
    vm_compute in Hop. injection Hop as <-. discriminate.
Defined.

(** ** Persistence *)

Lemma jsonImage_JObj fields :
  jsonImage (JObj fields) = JObj (prod_map id jsonImage <$> fields).
Proof.
  simpl. f_equal. induction fields as [|[k x] rest IH]; [done|].
  simpl. by rewrite IH.
Qed.

Lemma jsonImage_JArr xs : jsonImage (JArr xs) = JArr (jsonImage <$> xs).
Proof. reflexivity. Qed.

Lemma Map_of_entries_snoc entries k v :
  Map_of_entries (entries ++ [(k, v)]) = <[k := v]> (Map_of_entries entries).
Proof. unfold Map_of_entries. by rewrite foldl_snoc. Qed.

Lemma Map_of_entries_NoDup entries :
  NoDup entries.*1 -> Map_of_entries entries = list_to_map entries.
Proof.
  induction entries as [|[k v] entries IH] using rev_ind; [done|].
  rewrite fmap_app, NoDup_app. intros (Hnd & Hnotin & _).
  rewrite Map_of_entries_snoc, IH by done.
  symmetry. apply list_to_map_snoc.
  intros Hin. apply (Hnotin k Hin). simpl. apply list_elem_of_here.
Qed.

(** Reading back what was written for a [Map]. *)
Lemma Map_of_entries_jsonImage (m : gmap string jsval) :
  Object_entries (jsonImage (Object_fromEntries m))
  = Returned (prod_map id jsonImage <$> map_to_list m) /\
  Map_of_entries (prod_map id jsonImage <$> map_to_list m) = jsonImage <$> m.
Proof.
  split; [unfold Object_fromEntries; by rewrite jsonImage_JObj|].
  rewrite Map_of_entries_NoDup.
  - by rewrite list_to_map_fmap, list_to_map_to_list.
  - rewrite <- list_fmap_compose.
    rewrite (list_fmap_ext _ fst (map_to_list m)) by (by intros ? [? ?]).
    apply NoDup_fst_map_to_list.
Qed.



Section Persistence.
Context {platform : Platform}.

Lemma saveThenLoad_enrolledFaces w :
  enrolledFaces (saveThenLoad w) = jsonImage <$> enrolledFaces w.
Proof.
  destruct (Map_of_entries_jsonImage (enrolledFaces w)) as [Hentries Hmap].
  unfold saveThenLoad, newFaceRecognizer, loadEnrolledFaces,
    loadEnrolledFaces_try, saveEnrolledFaces.
  cbn [localStorage setItem truthySaved JSON_parse mbind outcome_bind].
  rewrite Hentries.
  cbn [mbind outcome_bind enrolledFaces print].
  by rewrite updateFaceMatcher_enrolledFaces.
Qed.

End Persistence.



(** ** Loading *)

Section Loading.
Context {platform : Platform}.

(** C9, as amended: [loadEnrolledFaces] catches every exception of its body.
    With no stored text, or the empty one, it changes nothing. On a text
    that [JSON.parse] rejects, and on the text [null], it reports an error
    on the console and leaves an empty set of enrolled faces. Any other
    text is taken as it is: the entries of the parsed value become the
    enrolled faces, whatever they hold, and no loading error is
    reported. *)
Theorem loadEnrolledFaces_fail_soft (w : world) :
  match localStorage w with
  | None | Some EmptyText => loadEnrolledFaces w = w
  | Some Unparsable | Some (JsonText JNull) =>
      (exists message, loadEnrolledFaces_try w = Thrown message) /\
      loadEnrolledFaces w = setEnrolledFaces ∅ (print ErrorLoading w)
  | Some (JsonText v) =>
      exists entries,
        Object_entries v = Returned entries /\
        loadEnrolledFaces_try w = Returned (loadEnrolledFaces w) /\
        enrolledFaces (loadEnrolledFaces w) = Map_of_entries entries /\
        last (console (loadEnrolledFaces w))
        = Some (LogLoaded (size (Map_of_entries entries)))
  end.
Proof.
  unfold loadEnrolledFaces, loadEnrolledFaces_try.
  destruct (localStorage w) as [[| |v]|]; simpl; try done.
  - split; [by eexists|done].
  - destruct v as [|b|x|s|xs|fields]; simpl;
      try (split; [by eexists|done]);
      (eexists; split; [done|]);
      rewrite updateFaceMatcher_enrolledFaces; simpl;
      (split; [done|]); (split; [done|]); by rewrite last_snoc.
Qed.
End Loading.

(** C9 fails as stated: the stored text [{"a":null}] is not a set of face
    records, yet it is loaded: the store then holds the label "a", and the
    console shows the failure to build a matcher, not a loading error. *)
Lemma load_malformed_counterexample :
  let w := newFaceRecognizer (platform:=demoPlatform)
             (Some (JsonText (JObj [("a", JNull)]))) in
  enrolledFaces w <> ∅ /\
  getEnrolledFaces w = ["a"] /\
  faceMatcher w = None /\
  console w = [ErrorUpdatingMatcher; LogLoaded 1].
Proof.
  split; [|by vm_compute].
  intros Hw. apply (f_equal (fun m => m !! "a")) in Hw. vm_compute in Hw. discriminate.
Qed.

(** ** The stored descriptor is a copy *)

#[local] Arguments Heap.alloc : simpl never.

Section Copies.
Context {platform : Platform}.

Lemma alloc_fresh numbers (h : gmap Heap.loc (list float)) :
  (Heap.alloc numbers h).1 ∉ dom h.
Proof. unfold Heap.alloc. simpl. apply is_fresh. Qed.

Lemma alloc_lookup_old numbers (h : gmap Heap.loc (list float)) (l : Heap.loc) :
  l ∈ dom h -> (Heap.alloc numbers h).2 !! l = h !! l.
Proof.
  intros Hl. unfold Heap.alloc. simpl. apply lookup_insert_ne.
  intros <-. by apply (is_fresh (dom h)).
Qed.

Lemma alloc_lookup_new numbers (h : gmap Heap.loc (list float)) :
  (Heap.alloc numbers h).2 !! (Heap.alloc numbers h).1 = Some numbers.
Proof. unfold Heap.alloc. simpl. apply lookup_insert_eq. Qed.

Lemma alloc_dom numbers (h : gmap Heap.loc (list float)) (l : Heap.loc) :
  l ∈ dom h -> l ∈ dom (Heap.alloc numbers h).2.
Proof. intros Hl. unfold Heap.alloc. simpl. set_solver. Qed.

(** Building the matcher leaves every array that existed as it was, and
    the arrays of the matcher are all new. *)
Lemma labeledDescriptors_new entries (h h' : gmap Heap.loc (list float)) matcher :
  Heap.labeledDescriptors entries h = Returned (matcher, h') ->
  (forall l, l ∈ dom h -> h' !! l = h !! l) /\
  Forall (fun ld => ld.2 ∉ dom h) matcher.
Proof.
  revert h h' matcher.
  induction entries as [|entry rest IH]; intros h h' matcher; simpl.
  - intros [= <- <-]. split; [done|constructor].
  - destruct (newFloat32Array _) as [d|]; simpl; [|done].
    destruct (Heap.labeledDescriptors rest _) as [[tail h2]|] eqn:Hrest;
      simpl; [|done].
    intros [= <- <-]. destruct (IH _ _ _ Hrest) as [Hold Hnew]. split.
    + intros l Hl. rewrite Hold by by apply alloc_dom.
      by apply alloc_lookup_old.
    + constructor; [simpl; apply is_fresh|].
      eapply Forall_impl; [exact Hnew|]. simpl.
      intros ld Hld Hin. apply Hld. by apply alloc_dom.
Qed.

Lemma updateFaceMatcher_heap s :
  Heap.enrolledFaces (Heap.updateFaceMatcher s) = Heap.enrolledFaces s /\
  (forall l, l ∈ dom (Heap.heap s) ->
     Heap.heap (Heap.updateFaceMatcher s) !! l = Heap.heap s !! l) /\
  forall matcher, Heap.faceMatcher (Heap.updateFaceMatcher s) = Some matcher ->
    Forall (fun ld => ld.2 ∉ dom (Heap.heap s)) matcher.
Proof.
  unfold Heap.updateFaceMatcher. case_bool_decide; [done|].
  destruct (Heap.labeledDescriptors _ _) as [[matcher h]|] eqn:Hlds; [|done].
  apply labeledDescriptors_new in Hlds as [Hold Hnew]. simpl.
  split; [done|]. split; [done|]. by intros ? [= <-].
Qed.

Lemma heap_enrollFace_accepts caller l enrolledAt s :
  l <> "" ->
  Heap.enrollFace (Some caller) l enrolledAt s
  = (Returned true,
     Heap.saveEnrolledFaces
       (Heap.updateFaceMatcher
          {| Heap.heap := (Heap.alloc (Heap.contents (Heap.heap s) caller) (Heap.heap s)).2;
             Heap.enrolledFaces :=
               <[l := {| Heap.descriptor :=
                           (Heap.alloc (Heap.contents (Heap.heap s) caller) (Heap.heap s)).1;
                         Heap.label := l; Heap.enrolledAt := enrolledAt |}]>
                 (Heap.enrolledFaces s);
             Heap.faceMatcher := Heap.faceMatcher s;
             Heap.localStorage := Heap.localStorage s |})).
Proof.
  intros Hl. apply truthyString_true in Hl. unfold Heap.enrollFace.
  by rewrite Hl.
Qed.

(** C10: [enrollFace] stores a copy of the descriptor it is given, in an
    array that did not exist before. Whatever the caller writes to its own
    typed array afterwards, the descriptor stored under the label, the
    descriptors the matcher holds and the stored text stay as [enrollFace]
    left them. *)
Theorem enrollFace_stores_copy (s : Heap.state) (caller : Heap.loc)
    (l enrolledAt : string) (numbers : list float) :
  caller ∈ dom (Heap.heap s) -> l <> "" ->
  let s' := (Heap.enrollFace (Some caller) l enrolledAt s).2 in
  let s'' := Heap.write caller numbers s' in
  (exists r, Heap.enrolledFaces s' !! l = Some r /\
             Heap.descriptor r ∉ dom (Heap.heap s)) /\
  Heap.storedDescriptor s' l = Some (Heap.contents (Heap.heap s) caller) /\
  Heap.storedDescriptor s'' l = Heap.storedDescriptor s' l /\
  Heap.matcherDescriptors s'' = Heap.matcherDescriptors s' /\
  Heap.localStorage s'' = Heap.localStorage s'.
Proof.
  intros Hcaller Hl. rewrite heap_enrollFace_accepts by done.
  cbn [snd].
  set (copy := Heap.alloc (Heap.contents (Heap.heap s) caller) (Heap.heap s)).
  set (s1 := {| Heap.heap := copy.2; Heap.enrolledFaces := _ |}).
  set (s' := Heap.saveEnrolledFaces (Heap.updateFaceMatcher s1)).
  set (s'' := Heap.write caller numbers s').
  destruct (updateFaceMatcher_heap s1) as (Hfaces & Hold & Hnew).
  assert (copy.1 ∉ dom (Heap.heap s)) as Hfresh by exact (alloc_fresh _ _).
  assert (copy.1 <> caller) as Hne.
  { intros Heq. apply Hfresh. by rewrite Heq. }
  assert (copy.1 ∈ dom (Heap.heap s1)) as Hcopy.
  { apply elem_of_dom. eexists. exact (alloc_lookup_new _ _). }
  assert (Heap.enrolledFaces s' !! l
          = Some {| Heap.descriptor := copy.1; Heap.label := l;
                    Heap.enrolledAt := enrolledAt |}) as Hrecord.
  { unfold s'. simpl. rewrite Hfaces. simpl. apply lookup_insert_eq. }
  assert (Heap.heap s' !! copy.1 = Some (Heap.contents (Heap.heap s) caller)) as Hstored.
  { unfold s'. simpl. rewrite Hold by done. exact (alloc_lookup_new _ _). }
  assert (Heap.faceMatcher s' = Heap.faceMatcher (Heap.updateFaceMatcher s1))
    as Hmatcher' by done.
  assert (Heap.enrolledFaces s'' = Heap.enrolledFaces s') as Hfaces'' by done.
  assert (Heap.heap s'' = <[caller := numbers]> (Heap.heap s')) as Hheap'' by done.
  assert (Heap.faceMatcher s'' = Heap.faceMatcher s') as Hmatcher'' by done.
  assert (Heap.localStorage s'' = Heap.localStorage s') as Hstorage'' by done.
  clearbody s'' s'.
  split; [by eexists|].
  split.
  { unfold Heap.storedDescriptor. rewrite Hrecord.
    cbn [mbind option_bind Heap.descriptor].
    unfold Heap.contents at 1. by rewrite Hstored. }
  split.
  { unfold Heap.storedDescriptor. rewrite Hfaces'', Hrecord.
    cbn [mbind option_bind Heap.descriptor].
    unfold Heap.contents. by rewrite Hheap'', lookup_insert_ne. }
  split; [|done].
  unfold Heap.matcherDescriptors. rewrite Hmatcher'', Hheap''.
  destruct (Heap.faceMatcher s') as [matcher|] eqn:Hm; [|done].
  cbn [fmap option_fmap option_map]. f_equal.
  assert (Forall (fun ld => ld.2 ∉ dom (Heap.heap s1)) matcher) as Hall.
  { apply Hnew. by rewrite <- Hmatcher'. }
  apply map_ext_Forall. eapply Forall_impl; [exact Hall|]. cbn beta.
  intros ld Hld. f_equal. unfold Heap.contents. rewrite lookup_insert_ne; [done|].
  intros Heq. apply Hld. rewrite <- Heq. exact (alloc_dom _ _ _ Hcaller).
Qed.
End Copies.

Lemma enrollFace_stores_copy_witness :
  let s' := (Heap.enrollFace (platform:=demoPlatform) (Some 1%positive)
               "Alice" "t0" callerHeap).2 in
  Heap.storedDescriptor (Heap.write 1%positive bob s') "Alice" = Some alice /\
  Heap.matcherDescriptors (Heap.write 1%positive bob s') = Some [("Alice", alice)].
Proof.
  assert (1%positive ∈ dom (Heap.heap callerHeap)) as Hcaller by (by vm_compute).
  assert ("Alice" <> "") as Hl by discriminate.
  pose proof (enrollFace_stores_copy (platform:=demoPlatform) callerHeap 1%positive
                "Alice" "t0" bob Hcaller Hl) as (_ & Hs & Hs' & Hm & _).
  split.
  - exact (eq_trans Hs' Hs).
  - exact (eq_trans Hm eq_refl).
Defined.

(** The two models agree on what is enrolled and on what is stored. *)
Section Agreement.
Context {platform : Platform}.

Lemma heap_updateFaceMatcher_storeValue s :
  Heap.wellFormed s ->
  Heap.storeValue (Heap.updateFaceMatcher s) = Heap.storeValue s.
Proof.
  intros Hwf. destruct (updateFaceMatcher_heap s) as (Hfaces & Hold & _).
  unfold Heap.storeValue. rewrite Hfaces. apply map_fmap_ext.
  intros l r Hr. unfold Heap.recordValue, Heap.contents.
  by rewrite (Hold _ (Hwf l r Hr)).
Qed.

Lemma heap_enrollFace_refines (s : Heap.state) (w : world)
    (caller : Heap.loc) (l enrolledAt : string) :
  Heap.wellFormed s -> l <> "" ->
  enrolledFaces w = Heap.storeValue s ->
  let numbers := Heap.contents (Heap.heap s) caller in
  let s' := (Heap.enrollFace (Some caller) l enrolledAt s).2 in
  let w' := (enrollFace (Some numbers) l enrolledAt w).2 in
  enrolledFaces w' = Heap.storeValue s' /\
  localStorage w' = Heap.localStorage s' /\
  Heap.wellFormed s'.
Proof.
  intros Hwf Hl Hw numbers s' w'. subst numbers s' w'.
  rewrite heap_enrollFace_accepts, enrollFace_accepts by done.
  cbn [snd].
  set (copy := Heap.alloc (Heap.contents (Heap.heap s) caller) (Heap.heap s)).
  set (s1 := {| Heap.heap := copy.2; Heap.enrolledFaces := _ |}).
  assert (Heap.wellFormed s1) as Hwf1.
  { intros l' r. unfold s1. simpl. rewrite lookup_insert.
    case_decide as Heq.
    - intros [= <-]. simpl. apply elem_of_dom. eexists.
      exact (alloc_lookup_new _ _).
    - intros Hr. apply alloc_dom. by eapply Hwf. }
  assert (Heap.storeValue s1
          = <[l := faceData (Heap.contents (Heap.heap s) caller) l enrolledAt]>
              (Heap.storeValue s)) as Hs1.
  { unfold Heap.storeValue, s1. simpl. rewrite fmap_insert. f_equal.
    - unfold Heap.recordValue, Heap.contents at 1. simpl.
      by rewrite lookup_insert_eq.
    - apply map_fmap_ext. intros l' r Hr.
      unfold Heap.recordValue, Heap.contents.
      rewrite lookup_insert_ne; [done|].
      intros Heq. apply (is_fresh (dom (Heap.heap s))). rewrite Heq.
      by eapply Hwf. }
  assert (Heap.storeValue (Heap.saveEnrolledFaces (Heap.updateFaceMatcher s1))
          = Heap.storeValue s1) as Hs'.
  { transitivity (Heap.storeValue (Heap.updateFaceMatcher s1)); [done|].
    by apply heap_updateFaceMatcher_storeValue. }
  split; [|split].
  - simpl. rewrite updateFaceMatcher_enrolledFaces. simpl.
    by rewrite Hs', Hs1, Hw.
  - simpl. rewrite updateFaceMatcher_enrolledFaces. simpl.
    do 4 f_equal. fold (Heap.storeValue (Heap.updateFaceMatcher s1)).
    by rewrite heap_updateFaceMatcher_storeValue, Hs1, Hw.
  - intros l' r Hr. simpl in *.
    destruct (updateFaceMatcher_heap s1) as (Hfaces & Hold & _).
    rewrite Hfaces in Hr. apply elem_of_dom.
    rewrite (Hold _ (Hwf1 l' r Hr)). apply elem_of_dom. by eapply Hwf1.
Qed.
End Agreement.


(* ================================================================== *)
(** * Further properties of the recognizer *)

Section RecognizerMore.
Context {platform : Platform}.


Lemma saveEnrolledFaces_persisted w : persisted (saveEnrolledFaces w).
Proof. reflexivity. Qed.


(** In every state of a recognizer, a matcher that is present holds every
    enrolled label exactly once, in the order of [getEnrolledFaces], and
    each of its descriptors was built from the record stored under its
    label. *)
Theorem reachable_matcher_of_store (w : world) (matcher : faceapi.FaceMatcher) :
  reachable w -> faceMatcher w = Some matcher ->
  faceapi.label <$> faceapi.labeledDescriptors matcher = getEnrolledFaces w /\
  NoDup (faceapi.label <$> faceapi.labeledDescriptors matcher) /\
  faceapi.labeledDescriptors matcher <> [] /\
  forall ld, ld ∈ faceapi.labeledDescriptors matcher ->
    exists v, enrolledFaces w !! faceapi.label ld = Some v /\
              labeledDescriptor (faceapi.label ld, v) = Returned ld.
Proof.
  intros R Hm. rewrite (reachable_inSync w R) in Hm.
  pose proof (matcher_labels w matcher Hm) as Hlabels.
  split; [done|]. split; [rewrite Hlabels; apply getEnrolledFaces_NoDup|].
  split.
  - intros Hnil. rewrite Hnil in Hlabels. simpl in Hlabels.
    unfold updateFaceMatcher in Hm. case_bool_decide as Hsize; [done|].
    apply Hsize. rewrite <- length_map_to_list.
    unfold getEnrolledFaces in Hlabels.
    by rewrite <- (length_fmap fst), <- Hlabels.
  - intros ld Hin. apply updateFaceMatcher_built in Hm.
    destruct (proj1 (list_elem_of_lookup _ _) Hin) as [i Hi].
    destruct (Forall2_lookup_r _ _ _ _ _ Hm Hi) as ([k v] & Hentry & Hld).
    apply list_elem_of_lookup_2, elem_of_map_to_list in Hentry.
    pose proof (labeledDescriptor_label _ _ Hld) as Hk. simpl in Hk.
    exists v. by rewrite Hk.
Qed.

(** [getStats] is consistent with itself and with [getEnrollmentCount]: the
    count is the number of labels listed, and [hasEnrolledFaces] tells
    whether a label is listed. *)
Theorem getStats_consistent (w : world) :
  enrolledCount (getStats w) = length (enrolledLabels (getStats w)) /\
  enrolledCount (getStats w) = getEnrollmentCount w /\
  (hasEnrolledFaces (getStats w) = true <-> enrolledLabels (getStats w) <> []).
Proof.
  unfold getStats, getEnrollmentCount, getEnrolledFaces. simpl.
  rewrite length_fmap, length_map_to_list. split; [done|]. split; [done|].
  rewrite bool_decide_eq_true, <- length_map_to_list.
  destruct (map_to_list (enrolledFaces w)); simpl; [split; [lia|done]|].
  split; [done|lia].
Qed.
End RecognizerMore.

Lemma reachable_matcher_of_store_witness :
  let w := perform (platform:=demoPlatform) (CallEnroll (Some alice) "Alice" "t0")
             (newFaceRecognizer (platform:=demoPlatform) None) in
  exists matcher,
    faceMatcher w = Some matcher /\
    faceapi.label <$> faceapi.labeledDescriptors matcher = getEnrolledFaces w.
Proof.
  eexists. split; [reflexivity|].
  refine (proj1 (reachable_matcher_of_store (platform:=demoPlatform) _ _ _ _)).
  - apply reachable_call, reachable_new.
  - reflexivity.
Defined.

(** ** Enrolling, removing and counting *)

Section StoreMore.
Context {platform : Platform}.


(** A second [removeFace] of the same label returns [false] and changes
    nothing. *)
Theorem removeFace_twice (w : world) (l : string) :
  removeFace l (removeFace l w).2 = (false, (removeFace l w).2).
Proof.
  assert (enrolledFaces (removeFace l w).2 !! l = None) as Hgone.
  { rewrite removeFace_enrolledFaces. apply lookup_delete_eq. }
  unfold removeFace at 1. rewrite bool_decide_eq_false_2; [done|].
  rewrite Hgone. by intros [? ?].
Qed.

(** The count goes up by one when a new label is enrolled and stays when
    an enrolled label is enrolled again; it goes down by one when an
    enrolled label is removed and stays otherwise. *)
Theorem getEnrollmentCount_changes (w : world) (numbers : list float) (l t : string) :
  l <> "" ->
  getEnrollmentCount (enrollFace (Some numbers) l t w).2
  = (if bool_decide (is_Some (enrolledFaces w !! l))
     then getEnrollmentCount w else S (getEnrollmentCount w)) /\
  getEnrollmentCount (removeFace l w).2
  = (if bool_decide (is_Some (enrolledFaces w !! l))
     then pred (getEnrollmentCount w) else getEnrollmentCount w).
Proof.
  intros Hl. unfold getEnrollmentCount.
  rewrite enrollFace_accepts_enrolledFaces, removeFace_enrolledFaces by done.
  case_bool_decide as Hin.
  - split.
    + by apply map_size_insert_Some.
    + by apply map_size_delete_Some.
  - apply eq_None_not_Some in Hin. split.
    + by apply map_size_insert_None.
    + by rewrite map_size_delete_None.
Qed.

(** Enrolling or removing under one label leaves the record of every other
    label as it was. *)
Theorem other_labels_untouched (w : world) (d : option (list float))
    (l l' t : string) :
  l' <> l ->
  enrolledFaces (enrollFace d l t w).2 !! l' = enrolledFaces w !! l' /\
  enrolledFaces (removeFace l w).2 !! l' = enrolledFaces w !! l'.
Proof.
  intros Hne. split.
  - destruct (truthyDescriptor d && truthyString l) eqn:Hok.
    + apply andb_true_iff in Hok as [Hd Hl]. destruct d as [numbers|]; [|done].
      apply truthyString_true in Hl.
      rewrite enrollFace_accepts_enrolledFaces by done.
      by apply lookup_insert_ne.
    + by rewrite enrollFace_rejects_enrolledFaces.
  - rewrite removeFace_enrolledFaces. by apply lookup_delete_ne.
Qed.
End StoreMore.


Lemma getEnrollmentCount_changes_witness :
  getEnrollmentCount (enrollFace (platform:=demoPlatform) (Some alice) "Alice" "t0" emptyWorld).2
  = 1.
Proof.
  refine (proj1 (getEnrollmentCount_changes (platform:=demoPlatform) emptyWorld alice
                   "Alice" "t0" _)).
  discriminate.
Defined.

Lemma other_labels_untouched_witness :
  enrolledFaces (enrollFace (platform:=demoPlatform) (Some bob) "Bob" "t1"
                   (enrollFace (platform:=demoPlatform) (Some alice) "Alice" "t0" emptyWorld).2).2
    !! "Alice" = Some (faceData alice "Alice" "t0").
Proof.
  refine (eq_trans (proj1 (other_labels_untouched (platform:=demoPlatform) _ (Some bob)
                             "Bob" "Alice" "t1" _)) _).
  - discriminate.
  - reflexivity.
Defined.

(** ** Enrolling through the prompt *)

Lemma trimStart_clean cs :
  match trimStart cs with
  | [] => True
  | c :: _ => isWhiteSpace c = false
  end.
Proof.
  induction cs as [|c cs IH]; [done|]. simpl.
  by destruct (isWhiteSpace c) eqn:Hc.
Qed.

Lemma trimStart_suffix cs :
  exists blanks, cs = (blanks ++ trimStart cs)%list /\
                 Forall (fun c => isWhiteSpace c = true) blanks.
Proof.
  induction cs as [|c cs (blanks & Hcs & Hblanks)]; [by exists []|]. simpl.
  destruct (isWhiteSpace c) eqn:Hc.
  - exists (c :: blanks). split; [simpl; by f_equal|by constructor].
  - by exists [].
Qed.

Lemma trimStart_id cs :
  match cs with
  | [] => True
  | c :: _ => isWhiteSpace c = false
  end -> trimStart cs = cs.
Proof. destruct cs as [|c cs]; [done|]. simpl. by intros ->. Qed.

(** Trimming the start of the reverse of a list that starts with no white
    space leaves a list whose reverse starts with none either. *)
Lemma trimEnd_clean cs :
  match cs with
  | [] => True
  | c :: _ => isWhiteSpace c = false
  end ->
  match rev (trimStart (rev cs)) with
  | [] => True
  | c :: _ => isWhiteSpace c = false
  end.
Proof.
  intros Hclean.
  destruct (trimStart_suffix (rev cs)) as (blanks & Hrev & Hblanks).
  apply (f_equal (@rev ascii)) in Hrev.
  rewrite rev_involutive, rev_app_distr in Hrev.
  destruct (rev (trimStart (rev cs))) as [|c rest]; [done|].
  rewrite Hrev in Hclean. exact Hclean.
Qed.

Lemma trim_idempotent s : trim (trim s) = trim s.
Proof.
  unfold trim. rewrite list_ascii_of_string_of_list_ascii. f_equal.
  set (once := rev (trimStart (rev (trimStart (String.list_ascii_of_string s))))).
  assert (trimStart once = once) as Hstart.
  { apply trimStart_id, trimEnd_clean, trimStart_clean. }
  rewrite Hstart. unfold once at 1. rewrite rev_involutive.
  pose proof (trimStart_clean (rev (trimStart (String.list_ascii_of_string s)))) as Hend.
  by rewrite (trimStart_id _ Hend).
Qed.


Section Prompt.
Context {platform : Platform}.


(** What [enrollFaceWithPrompt] does depends on the name only through its
    trimmed form, and the label it stores is in trimmed form: a name that
    differs from an enrolled label by surrounding white space refers to
    that label. *)
Theorem enrollFaceWithPrompt_trimmed (d : option (list float)) (a b : string)
    (overwrite : bool) (t : string) (w : world) :
  trim a = trim b ->
  enrollFaceWithPrompt d (Some a) overwrite t w
  = enrollFaceWithPrompt d (Some b) overwrite t w /\
  enrollFaceWithPrompt d (Some (trim a)) overwrite t w
  = enrollFaceWithPrompt d (Some a) overwrite t w.
Proof.
  assert (forall x, negb (truthyString x) || String.eqb (trim x) ""
                    = String.eqb (trim x) "") as Hguard.
  { intros x. destruct (negb (truthyString x)) eqn:Hx; [|done].
    apply negb_true_iff, truthyString_false in Hx. by rewrite Hx. }
  intros Hab. unfold enrollFaceWithPrompt.
  rewrite !Hguard, trim_idempotent, Hab. done.
Qed.
End Prompt.

Lemma enrollFaceWithPrompt_trimmed_witness :
  enrollFaceWithPrompt (platform:=demoPlatform) (Some alice) (Some "  Alice ") true "t0"
    emptyWorld
  = enrollFaceWithPrompt (platform:=demoPlatform) (Some alice) (Some "Alice") true "t0"
      emptyWorld.
Proof.
  refine (proj1 (enrollFaceWithPrompt_trimmed (platform:=demoPlatform) (Some alice)
                   "  Alice " "Alice" true "t0" emptyWorld _)).
  reflexivity.
Defined.


(* ================================================================== *)
(** * The camera manager *)

Module CameraFacts.
Import CameraManager.

Lemma stopCamera_sound c : cameraSound c -> cameraSound (stopCamera c).
Proof.
  intros (Hactive & Hlive & Hmade). unfold stopCamera.
  destruct (stream c) as [s|] eqn:Hs.
  - split; [|split]; simpl.
    + split; [done|]. intros Hsome. by destruct Hsome.
    + intros s' Hin. apply elem_of_difference in Hin as [Hin Hne].
      specialize (Hlive s' Hin). assert (s' = s) by congruence. set_solver.
    + by intros ? [=].
  - unfold cameraSound. by rewrite Hs.
Qed.

Lemma stopCamera_stopped c :
  cameraSound c ->
  stream (stopCamera c) = None /\ isActive (stopCamera c) = false /\
  liveStreams (stopCamera c) = ∅.
Proof.
  intros (Hactive & Hlive & Hmade). unfold stopCamera.
  destruct (stream c) as [s|] eqn:Hs; simpl.
  - split; [done|]. split; [done|]. apply set_eq. intros s'.
    rewrite elem_of_difference. split; [|set_solver].
    intros [Hin Hne]. specialize (Hlive s' Hin). assert (s' = s) by congruence.
    set_solver.
  - split; [done|]. split.
    + destruct (isActive c); [|done]. destruct (proj1 Hactive eq_refl) as [? ?].
      congruence.
    + apply set_eq. intros s'. split; [|set_solver].
      intros Hin. specialize (Hlive s' Hin). congruence.
Qed.

Lemma startCamera_sound supported getUserMedia deviceId constraints c :
  cameraSound c ->
  cameraSound (startCamera supported getUserMedia deviceId constraints c).2.
Proof.
  intros Hc. unfold startCamera. destruct supported; simpl; [|done].
  pose proof (stopCamera_sound c Hc) as Hc1.
  destruct (stopCamera_stopped c Hc) as (Hs & Ha & Hl).
  destruct (getUserMedia _); simpl; [|done].
  split; [|split]; simpl.
  - split; [by eexists|done].
  - intros s. rewrite Hl. intros Hin. f_equal. set_solver.
  - intros s [= <-]. lia.
Qed.

Lemma getAvailableDevices_sound enumerate c :
  cameraSound c -> cameraSound (getAvailableDevices enumerate c).2.
Proof. intros Hc. unfold getAvailableDevices. by destruct enumerate. Qed.

Lemma switchCamera_sound supported enumerate getUserMedia c :
  cameraSound c -> cameraSound (switchCamera supported enumerate getUserMedia c).2.
Proof.
  intros Hc. unfold switchCamera.
  pose proof (getAvailableDevices_sound enumerate c Hc) as Hc1.
  destruct (getAvailableDevices enumerate c) as [[devices|message] c1]; simpl in *;
    [|done].
  case_bool_decide; [done|].
  destruct (_ !! _); [|done]. by apply startCamera_sound.
Qed.

Lemma reachable_sound c : reachable c -> cameraSound c.
Proof.
  induction 1 as [|st c _ IH].
  - split; [|split]; simpl; [|set_solver|by intros ? [=]].
    split; [done|]. intros Hsome. by destruct Hsome.
  - destruct st; simpl.
    + by apply startCamera_sound.
    + by apply stopCamera_sound.
    + by apply switchCamera_sound.
    + by apply getAvailableDevices_sound.
    + destruct IH as (Hactive & Hlive & Hmade).
      split; [|split]; simpl; [done| |done].
      intros s' Hin. apply Hlive. set_solver.
Qed.

(** When the calls of a camera manager do not overlap, it is active exactly
    when it holds a stream, and no stream other than the one it holds is
    running: every stream it let go of has been stopped. A camera that
    [isActiveCamera] reports active is held and running. *)
Theorem camera_holds_the_only_stream (c : camera) :
  reachable c ->
  (isActive c = true <-> is_Some (stream c)) /\
  (forall s, s ∈ liveStreams c -> stream c = Some s) /\
  (isActiveCamera c = true ->
   exists s, stream c = Some s /\ liveStreams c = {[s]}).
Proof.
  intros R. destruct (reachable_sound c R) as (Hactive & Hlive & _).
  split; [done|]. split; [done|].
  unfold isActiveCamera. intros Hon. apply andb_true_iff in Hon as [_ Hon].
  destruct (stream c) as [s|]; [|done]. apply bool_decide_eq_true in Hon.
  exists s. split; [done|]. apply set_eq. intros s'. split.
  - intros Hin. specialize (Hlive s' Hin). set_solver.
  - set_solver.
Qed.

(** A [startCamera] that the browser rejects throws the message chosen for
    the name of the error and leaves the manager stopped: the stream that
    was running has been ended and is not restored, while
    [currentDeviceId] still names the device of before. Without
    [getUserMedia] in the browser it throws before touching anything. *)
Theorem startCamera_failure (c : camera) (getUserMedia : request -> answer)
    (deviceId : option string) (constraints : gmap string constraint)
    (name message : string) :
  reachable c ->
  getUserMedia (streamConstraints deviceId constraints) = Rejected name message ->
  let r := startCamera true getUserMedia deviceId constraints c in
  r.1 = Thrown (startError name message) /\
  stream r.2 = None /\ isActive r.2 = false /\ isActiveCamera r.2 = false /\
  liveStreams r.2 = ∅ /\
  currentDeviceId r.2 = currentDeviceId c /\
  startCamera false getUserMedia deviceId constraints c
  = (Thrown "Camera access is not supported in this browser", c).
Proof.
  intros R Hrej. unfold startCamera. simpl. rewrite Hrej. simpl.
  destruct (stopCamera_stopped c (reachable_sound c R)) as (Hs & Ha & Hl).
  unfold isActiveCamera. rewrite Hs, Ha, Hl. repeat split; try done.
  unfold stopCamera. by destruct (stream c).
Qed.

(** The request of [startCamera]: a device that is asked for is required
    exactly and replaces [facingMode], whatever [constraints] holds for
    these two; without a device [facingMode] is the one of [constraints]
    or "user". Every other property is the one of [constraints], or else
    the default. *)
Theorem streamConstraints_device (deviceId : option string)
    (constraints : gmap string constraint) :
  let v := video (streamConstraints deviceId constraints) in
  audio (streamConstraints deviceId constraints) = false /\
  match deviceId with
  | Some id =>
      if truthyString id
      then v !! "deviceId" = Some (Exact id) /\ v !! "facingMode" = None
      else v !! "deviceId" = constraints !! "deviceId" /\
           v !! "facingMode" = Some (default (Text "user") (constraints !! "facingMode"))
  | None =>
      v !! "deviceId" = constraints !! "deviceId" /\
      v !! "facingMode" = Some (default (Text "user") (constraints !! "facingMode"))
  end /\
  forall k : string, k <> "deviceId" -> k <> "facingMode" ->
    v !! k = match constraints !! k with
             | Some x => Some x
             | None => defaultConstraints !! k
             end.
Proof.
  assert (forall k : string,
            (constraints ∪ defaultConstraints) !! k
            = match constraints !! k with
              | Some x => Some x
              | None => defaultConstraints !! k
              end) as Hunion.
  { intros k. rewrite lookup_union. by destruct (constraints !! k), (defaultConstraints !! k). }
  assert ((constraints ∪ defaultConstraints) !! "facingMode"
          = Some (default (Text "user") (constraints !! "facingMode"))) as Hfacing.
  { rewrite Hunion. by destruct (constraints !! "facingMode"). }
  assert ((constraints ∪ defaultConstraints) !! "deviceId" = constraints !! "deviceId")
    as Hdevice.
  { rewrite Hunion. by destruct (constraints !! "deviceId"). }
  simpl. split; [done|]. split.
  - destruct deviceId as [id|]; [|done]. destruct (truthyString id); [|done].
    split.
    + rewrite lookup_delete_ne by done. apply lookup_insert_eq.
    + apply lookup_delete_eq.
  - intros k Hk1 Hk2. destruct deviceId as [id|]; [|apply Hunion].
    destruct (truthyString id); [|apply Hunion].
    rewrite lookup_delete_ne, lookup_insert_ne by done. apply Hunion.
Qed.

End CameraFacts.

Lemma camera_holds_the_only_stream_witness :
  let c := CameraManager.run
             (CameraManager.SwitchCamera true (Returned threeCameras) grantAll)
             (CameraManager.run (CameraManager.StartCamera true grantAll None ∅)
                CameraManager.newCameraManager) in
  CameraManager.isActive c = true <-> is_Some (CameraManager.stream c).
Proof.
  intros c.
  refine (proj1 (CameraFacts.camera_holds_the_only_stream c _)).
  do 2 apply CameraManager.reachable_run. apply CameraManager.reachable_new.
Defined.

Lemma startCamera_failure_witness :
  let c := CameraManager.run (CameraManager.StartCamera true grantAll None ∅)
             CameraManager.newCameraManager in
  CameraManager.liveStreams c = {[ 0 ]} /\
  (CameraManager.startCamera true denyAll (Some "back") ∅ c).1
  = Thrown "Camera access denied. Please allow camera permissions and reload the page." /\
  CameraManager.liveStreams (CameraManager.startCamera true denyAll (Some "back") ∅ c).2 = ∅.
Proof.
  intros c. split; [by vm_compute|].
  assert (CameraManager.reachable c) as R.
  { apply CameraManager.reachable_run, CameraManager.reachable_new. }
  pose proof (CameraFacts.startCamera_failure c denyAll (Some "back") ∅
                "NotAllowedError" "Permission denied" R eq_refl)
    as (Hthrown & _ & _ & _ & Hlive & _).
  split; [exact Hthrown | exact Hlive].
Defined.

(** ** Switching cameras *)

Module SwitchFacts.
Import CameraManager.

Lemma findIndex_found (cams : list MediaDeviceInfo) (i : nat) (dev : MediaDeviceInfo) :
  NoDup (deviceId <$> cams) -> cams !! i = Some dev ->
  findIndex (fun d => String.eqb (deviceId d) (deviceId dev)) cams = Some i.
Proof.
  revert i. induction cams as [|d cams IH]; intros i Hnd Hi; [done|].
  rewrite fmap_cons in Hnd. apply NoDup_cons in Hnd as [Hnotin Hnd].
  destruct i as [|i]; simpl in *.
  - injection Hi as ->. by rewrite String.eqb_refl.
  - destruct (String.eqb_spec (deviceId d) (deviceId dev)) as [Heq|_].
    + exfalso. apply Hnotin. rewrite Heq.
      apply list_elem_of_fmap. exists dev. split; [done|].
      by eapply list_elem_of_lookup_2.
    + by rewrite (IH i Hnd Hi).
Qed.

Lemma findIndex_absent {A} (p : A -> bool) (xs : list A) :
  Forall (fun x => p x = false) xs -> findIndex p xs = None.
Proof.
  induction 1 as [|x xs Hx _ IH]; [done|]. simpl. by rewrite Hx, IH.
Qed.

Lemma stopCamera_keeps c :
  streamsMade (stopCamera c) = streamsMade c /\
  availableDevices (stopCamera c) = availableDevices c /\
  currentDeviceId (stopCamera c) = currentDeviceId c.
Proof. unfold stopCamera. by destruct (stream c). Qed.

Lemma startCamera_granted c getUserMedia deviceId constraints :
  getUserMedia (streamConstraints deviceId constraints) = Granted ->
  startCamera true getUserMedia deviceId constraints c
  = (Returned (streamsMade c),
     {| stream := Some (streamsMade c); currentDeviceId := deviceId;
        availableDevices := availableDevices c; isActive := true;
        liveStreams := {[streamsMade c]} ∪ liveStreams (stopCamera c);
        streamsMade := S (streamsMade c) |}).
Proof.
  intros Hgrant. unfold startCamera. cbn [negb]. rewrite Hgrant.
  destruct (stopCamera_keeps c) as (-> & -> & _). done.
Qed.

(** What a [switchCamera] that reaches [startCamera] with a granting browser
    leaves, in terms of the position [target] it computed. *)
Lemma switchCamera_target (c : camera) (devices : list MediaDeviceInfo)
    (getUserMedia : request -> answer) (next : MediaDeviceInfo) :
  let cams := filter (fun device => kind device = "videoinput") devices in
  2 <= length cams ->
  cams !! nextIndex (findIndex (isCurrent
            (getAvailableDevices (Returned devices) c).2) cams) (length cams)
  = Some next ->
  getUserMedia (streamConstraints (Some (deviceId next)) ∅) = Granted ->
  let r := switchCamera true (Returned devices) getUserMedia c in
  r.1 = Returned (streamsMade c) /\
  stream r.2 = Some (streamsMade c) /\
  currentDeviceId r.2 = Some (deviceId next) /\
  isActiveCamera r.2 = true /\
  availableDevices r.2 = cams.
Proof.
  intros cams Hlen Hnext Hgrant. unfold switchCamera.
  cbn [getAvailableDevices availableDevices fst snd] in *. fold cams in Hnext |- *.
  rewrite bool_decide_eq_false_2 by lia. rewrite Hnext.
  rewrite startCamera_granted by done. cbn [fst snd].
  repeat split; try done.
  unfold isActiveCamera. cbn [isActive stream liveStreams andb].
  apply bool_decide_eq_true. set_solver.
Qed.

(** With at least two cameras, whose identifiers are pairwise distinct, a
    [switchCamera] that the browser grants moves from the camera at
    position [i] of the list to the one at position [(i + 1) mod n], which
    is another camera; when the current device is not in the list (as
    after [startCamera()] without a device) it moves to the first. *)
Theorem switchCamera_next (c : camera) (devices : list MediaDeviceInfo)
    (getUserMedia : request -> answer) (i : nat) (dev next : MediaDeviceInfo) :
  let cams := filter (fun device => kind device = "videoinput") devices in
  2 <= length cams -> NoDup (deviceId <$> cams) ->
  cams !! i = Some dev -> currentDeviceId c = Some (deviceId dev) ->
  cams !! ((i + 1) mod length cams) = Some next ->
  getUserMedia (streamConstraints (Some (deviceId next)) ∅) = Granted ->
  let r := switchCamera true (Returned devices) getUserMedia c in
  r.1 = Returned (streamsMade c) /\
  stream r.2 = Some (streamsMade c) /\
  currentDeviceId r.2 = Some (deviceId next) /\
  isActiveCamera r.2 = true /\
  availableDevices r.2 = cams /\
  deviceId next <> deviceId dev.
Proof.
  intros cams Hlen Hnd Hi Hcur Hnext Hgrant r.
  assert (findIndex (isCurrent (getAvailableDevices (Returned devices) c).2) cams
          = Some i) as Hfound.
  { unfold isCurrent. simpl. rewrite Hcur. by apply findIndex_found. }
  destruct (switchCamera_target c devices getUserMedia next Hlen) as (H1 & H2 & H3 & H4 & H5).
  { fold cams. by rewrite Hfound. }
  { done. }
  repeat split; try done.
  intros Hsame.
  pose proof (lookup_lt_Some _ _ _ Hi) as Hlt.
  assert ((deviceId <$> cams) !! ((i + 1) mod length cams) = Some (deviceId next)) as Ha.
  { by rewrite list_lookup_fmap, Hnext. }
  assert ((deviceId <$> cams) !! i = Some (deviceId next)) as Hb.
  { by rewrite list_lookup_fmap, Hi, Hsame. }
  pose proof (NoDup_lookup _ _ _ _ Hnd Ha Hb) as Heq.
  destruct (decide (i + 1 < length cams)) as [Hin|Hout].
  - rewrite Nat.mod_small in Heq by done. lia.
  - assert (i + 1 = length cams) as Hend by lia.
    rewrite Hend, Nat.Div0.mod_same in Heq. lia.
Qed.

Theorem switchCamera_first (c : camera) (devices : list MediaDeviceInfo)
    (getUserMedia : request -> answer) (next : MediaDeviceInfo) :
  let cams := filter (fun device => kind device = "videoinput") devices in
  2 <= length cams ->
  Forall (fun dev => currentDeviceId c <> Some (deviceId dev)) cams ->
  cams !! 0 = Some next ->
  getUserMedia (streamConstraints (Some (deviceId next)) ∅) = Granted ->
  let r := switchCamera true (Returned devices) getUserMedia c in
  r.1 = Returned (streamsMade c) /\
  stream r.2 = Some (streamsMade c) /\
  currentDeviceId r.2 = Some (deviceId next) /\
  isActiveCamera r.2 = true /\
  availableDevices r.2 = cams.
Proof.
  intros cams Hlen Hnone Hnext Hgrant.
  apply switchCamera_target; try done. fold cams.
  rewrite findIndex_absent; [done|].
  eapply Forall_impl; [exact Hnone|]. simpl. intros dev Hdev.
  unfold isCurrent. simpl. destruct (currentDeviceId c) as [id|]; [|done].
  apply String.eqb_neq. congruence.
Qed.

(** A [switchCamera] that fails before it starts a camera leaves the
    running stream alone: when the devices cannot be listed nothing
    changes, and when fewer than two cameras are listed only the list of
    devices is updated. *)
Theorem switchCamera_keeps_stream (supported : bool) (c : camera)
    (enumerate : outcome (list MediaDeviceInfo)) (getUserMedia : request -> answer) :
  let r := switchCamera supported enumerate getUserMedia c in
  match enumerate with
  | Thrown _ => r = (Thrown "Unable to access camera devices", c)
  | Returned devices =>
      let cams := filter (fun device => kind device = "videoinput") devices in
      length cams <= 1 ->
      r.1 = Thrown "No additional cameras available" /\
      stream r.2 = stream c /\ isActive r.2 = isActive c /\
      liveStreams r.2 = liveStreams c /\
      currentDeviceId r.2 = currentDeviceId c /\
      availableDevices r.2 = cams
  end.
Proof.
  destruct enumerate as [devices|message]; simpl; [|done].
  intros Hlen. unfold switchCamera. simpl.
  by rewrite bool_decide_eq_true_2.
Qed.

End SwitchFacts.

Module CycleFacts.
Import CameraManager.

(** With [n] cameras of pairwise distinct identifiers and a browser that
    grants every request, [k] calls of [switchCamera] from the camera at
    position [i] lead to the camera at position [(i + k) mod n]; after [n]
    calls the camera of the start is the current one again. *)
Theorem switchCamera_cycle (c : camera) (devices : list MediaDeviceInfo)
    (getUserMedia : request -> answer) (i : nat) (dev : MediaDeviceInfo) :
  let cams := filter (fun device => kind device = "videoinput") devices in
  let switch := fun c => (switchCamera true (Returned devices) getUserMedia c).2 in
  2 <= length cams -> NoDup (deviceId <$> cams) ->
  cams !! i = Some dev -> currentDeviceId c = Some (deviceId dev) ->
  (forall r, getUserMedia r = Granted) ->
  (forall k, exists dev',
      cams !! ((i + k) mod length cams) = Some dev' /\
      currentDeviceId (Nat.iter k switch c) = Some (deviceId dev')) /\
  currentDeviceId (Nat.iter (length cams) switch c) = currentDeviceId c.
Proof.
  intros cams switch Hlen Hnd Hi Hcur Hgrant.
  pose proof (lookup_lt_Some _ _ _ Hi) as Hlt.
  assert (forall k, exists dev',
            cams !! ((i + k) mod length cams) = Some dev' /\
            currentDeviceId (Nat.iter k switch c) = Some (deviceId dev')) as Hall.
  { induction k as [|k (dev' & Hdev' & Hcur')].
    - exists dev. rewrite Nat.add_0_r, Nat.mod_small by done. done.
    - assert ((i + S k) mod length cams
              = ((i + k) mod length cams + 1) mod length cams) as Hstep.
      { rewrite Nat.Div0.add_mod_idemp_l. f_equal. lia. }
      destruct (lookup_lt_is_Some_2 cams ((i + S k) mod length cams)) as [next Hnext].
      { apply Nat.mod_upper_bound. lia. }
      exists next. split; [done|]. simpl.
      rewrite Hstep in Hnext.
      assert (findIndex (isCurrent (getAvailableDevices (Returned devices)
                                       (Nat.iter k switch c)).2) cams
              = Some ((i + k) mod length cams)) as Hfound.
      { unfold isCurrent. simpl. rewrite Hcur'. by apply SwitchFacts.findIndex_found. }
      destruct (SwitchFacts.switchCamera_target (Nat.iter k switch c) devices
                  getUserMedia next Hlen) as (_ & _ & Hnew & _); [|apply Hgrant|done].
      fold cams. by rewrite Hfound. }
  split; [done|].
  destruct (Hall (length cams)) as (dev' & Hdev' & Hcur').
  rewrite Hcur', Hcur. do 2 f_equal.
  replace ((i + length cams) mod length cams) with i in Hdev'; [congruence|].
  rewrite <- Nat.Div0.add_mod_idemp_r, Nat.Div0.mod_same, Nat.add_0_r.
  by rewrite Nat.mod_small.
Qed.

End CycleFacts.

Lemma switchCamera_first_witness :
  let c := CameraManager.run (CameraManager.StartCamera true grantAll None ∅)
             CameraManager.newCameraManager in
  CameraManager.currentDeviceId c = None /\
  CameraManager.currentDeviceId
    (CameraManager.switchCamera true (Returned threeCameras) grantAll c).2
  = Some "front".
Proof.
  intros c. split; [reflexivity|].
  refine (proj1 (proj2 (proj2
            (SwitchFacts.switchCamera_first c threeCameras grantAll
               {| CameraManager.deviceId := "front"; CameraManager.kind := "videoinput";
                  CameraManager.label := "Front" |} _ _ _ _)))).
  - vm_compute. lia.
  - vm_compute. repeat constructor; discriminate.
  - reflexivity.
  - reflexivity.
Defined.

Lemma switchCamera_next_witness :
  CameraManager.currentDeviceId
    (CameraManager.switchCamera true (Returned threeCameras) grantAll onFront).2
  = Some "back".
Proof.
  refine (proj1 (proj2 (proj2
            (SwitchFacts.switchCamera_next onFront threeCameras grantAll 0
               {| CameraManager.deviceId := "front"; CameraManager.kind := "videoinput";
                  CameraManager.label := "Front" |}
               {| CameraManager.deviceId := "back"; CameraManager.kind := "videoinput";
                  CameraManager.label := "Back" |} _ _ _ _ _ _)))).
  - vm_compute. lia.
  - vm_compute. repeat constructor; set_solver.
  - reflexivity.
  - reflexivity.
  - reflexivity.
  - reflexivity.
Defined.

Lemma switchCamera_cycle_witness :
  CameraManager.currentDeviceId
    (Nat.iter 3 (fun c => (CameraManager.switchCamera true (Returned threeCameras)
                             grantAll c).2) onFront)
  = Some "front".
Proof.
  refine (proj2 (CycleFacts.switchCamera_cycle onFront threeCameras grantAll 0
                   {| CameraManager.deviceId := "front"; CameraManager.kind := "videoinput";
                      CameraManager.label := "Front" |} _ _ _ _ _)).
  - vm_compute. lia.
  - vm_compute. repeat constructor; set_solver.
  - reflexivity.
  - reflexivity.
  - reflexivity.
Defined.

Lemma switchCamera_keeps_stream_witness :
  let c := onFront in
  let r := CameraManager.switchCamera true
             (Returned [ {| CameraManager.deviceId := "front";
                            CameraManager.kind := "videoinput";
                            CameraManager.label := "Front" |} ]) grantAll c in
  r.1 = Thrown "No additional cameras available" /\
  CameraManager.liveStreams r.2 = CameraManager.liveStreams c.
Proof.
  intros c r.
  pose proof (SwitchFacts.switchCamera_keeps_stream true c
                (Returned [ {| CameraManager.deviceId := "front";
                               CameraManager.kind := "videoinput";
                               CameraManager.label := "Front" |} ]) grantAll) as H.
  simpl in H. destruct H as (H1 & _ & _ & H4 & _); [vm_compute; lia|].
  split; [exact H1 | exact H4].
Defined.

(* ================================================================== *)
(** * The application *)

Section AppFacts.
Context {platform : Platform}.




Lemma app_enrollFace_keeps answer overwrite t a :
  App.currentDetections (App.enrollFace answer overwrite t a) = App.currentDetections a /\
  App.currentRecognitions (App.enrollFace answer overwrite t a) = App.currentRecognitions a /\
  App.isProcessing (App.enrollFace answer overwrite t a) = App.isProcessing a /\
  App.detecting (App.enrollFace answer overwrite t a) = App.detecting a /\
  App.scheduled (App.enrollFace answer overwrite t a) = App.scheduled a /\
  App.framesRequested (App.enrollFace answer overwrite t a) = App.framesRequested a.
Proof.
  unfold App.enrollFace. case_bool_decide; [done|]. case_bool_decide; [done|].
  destruct (App.currentDetections a) as [|d rest] eqn:Hd; [by rewrite Hd|].
  destruct (descriptor d); [|simpl; by rewrite Hd].
  destruct (enrollFaceWithPrompt _ _ _ _ _) as [[b|m] w']; simpl; by rewrite Hd.
Qed.



Lemma stopped_step (e : App.event) (a : App.app) :
  App.isProcessing a = false -> App.isStart e = false ->
  App.isProcessing (App.step e a) = false /\
  App.detecting (App.step e a) <= App.detecting a /\
  App.scheduled (App.step e a) ⊆ App.scheduled a /\
  App.framesRequested (App.step e a) = App.framesRequested a.
Proof.
  intros Hoff Hne.
  assert (App.isProcessing a = false /\ App.detecting a <= App.detecting a /\
          App.scheduled a ⊆ App.scheduled a /\
          App.framesRequested a = App.framesRequested a) as Hsame.
  { repeat split; [done|lia|set_solver]. }
  destruct e; simpl; try done.
  - unfold App.stopProcessing, App.cancelFrame. simpl.
    destruct (App.animationId a); simpl; repeat split; try done; set_solver.
  - unfold App.pauseProcessing, App.cancelFrame.
    destruct (App.animationId a); simpl; repeat split; try done; set_solver.
  - unfold App.resumeProcessing. destruct (App.animationId a); [done|].
    by rewrite Hoff.
  - case_bool_decide; [|done]. unfold App.processFrame_start. simpl.
    rewrite Hoff. simpl. repeat split; try done. set_solver.
  - destruct (App.detecting a) as [|awaited] eqn:Hdet; [by rewrite Hdet|].
    unfold App.processFrame_resume. simpl.
    destruct (FaceDetector.detectFaces true library); simpl; rewrite Hoff;
      simpl; repeat split; try done; try lia; set_solver.
  - destruct (app_enrollFace_keeps answer overwrite enrolledAt a)
      as (_ & _ & -> & -> & -> & ->). done.
  - unfold App.clearEnrolledFaces. case_bool_decide; [done|]. by destruct confirmed.
Qed.

(** After [stopProcessing], and until [startProcessing] is called, the
    loop is off whatever happens: callbacks that run, detections that are
    answered, pauses and resumes (as on a change of visibility) request no
    further frame and start no further detection. *)
Theorem stopped_stays_stopped (a : App.app) (events : list App.event) :
  Forall (fun e => App.isStart e = false) events ->
  let a' := foldl (fun a e => App.step e a) (App.stopProcessing a) events in
  App.isProcessing a' = false /\
  App.detecting a' <= App.detecting a /\
  App.scheduled a' ⊆ App.scheduled a /\
  App.framesRequested a' = App.framesRequested a.
Proof.
  intros Hevents.
  assert (App.isProcessing (App.stopProcessing a) = false /\
          App.detecting (App.stopProcessing a) <= App.detecting a /\
          App.scheduled (App.stopProcessing a) ⊆ App.scheduled a /\
          App.framesRequested (App.stopProcessing a) = App.framesRequested a) as Hstop.
  { unfold App.stopProcessing, App.cancelFrame. simpl.
    destruct (App.animationId a); simpl; repeat split; try done; set_solver. }
  revert Hstop. generalize (App.stopProcessing a). intros a0 Ha0.
  induction events as [|e events IH] using rev_ind; [done|].
  apply Forall_app in Hevents as [Hevents He]. rewrite Forall_singleton in He.
  simpl. rewrite foldl_snoc.
  destruct (IH Hevents) as (Hoff & Hdet & Hsched & Hreq).
  destruct (stopped_step e _ Hoff He) as (Hoff' & Hdet' & Hsched' & Hreq').
  repeat split; [done|lia|set_solver|congruence].
Qed.

End AppFacts.



Lemma stopped_stays_stopped_witness :
  let a := foldl (fun a e => App.step (platform:=demoPlatform) e a)
             (App.newApp (platform:=demoPlatform) None) appRun in
  let events := [ App.FrameCallback 2 true; App.PauseProcessing;
                  App.ResumeProcessing true;
                  App.DetectionAnswered (Returned []) ] in
  App.scheduled a = {[ 2%positive ]} /\
  App.isProcessing
    (foldl (fun a e => App.step (platform:=demoPlatform) e a)
       (App.stopProcessing a) events) = false.
Proof.
  intros a events. split; [by vm_compute|].
  refine (proj1 (stopped_stays_stopped (platform:=demoPlatform) a events _)).
  repeat constructor.
Defined.

(* ================================================================== *)
(** * The upload manager *)

Section UploadFacts.
Context {platform : Platform}.

(** [handleFileSelect] refuses a file whose type does not start with
    "image/", whatever its size, and an image of more than 10485760 bytes;
    in both cases it shows one alert and does nothing else. An image of
    exactly 10485760 bytes is processed. *)
Theorem handleFileSelect_validates (f : Upload.file) (imageLoads : bool)
    (library : outcome (list detection)) (u : Upload.upload) :
  let u' := Upload.handleFileSelect f imageLoads library u in
  (String.prefix "image/" (Upload.fileType f) = false ->
   u' = Upload.showError "Please select a valid image file" u) /\
  (String.prefix "image/" (Upload.fileType f) = true ->
   (10485760 < Upload.fileSize f)%N ->
   u' = Upload.showError
          "Image file is too large. Please select a file smaller than 10MB" u) /\
  (String.prefix "image/" (Upload.fileType f) = true ->
   (Upload.fileSize f <= 10485760)%N ->
   u' = if imageLoads
        then Upload.detectFacesInImage library
               (Upload.imageLoaded
                  (Upload.showDetectionResults "Processing image..." false u))
        else Upload.showError "Failed to load image"
               (Upload.showDetectionResults "Processing image..." false u)).
Proof.
  unfold Upload.handleFileSelect, Upload.maxFileSize.
  change (10 * 1024 * 1024)%N with 10485760%N.
  split; [by intros ->|]. split.
  - intros -> Hbig. simpl. by rewrite (proj2 (N.ltb_lt _ _) Hbig).
  - intros -> Hsmall. simpl. by rewrite (proj2 (N.ltb_ge _ _) Hsmall).
Qed.

(** The upload form and the prompt of the camera page enroll alike: with
    the first detection selected, [enrollSelectedFace] leaves the
    recognizer that [enrollFaceWithPrompt] leaves for the same name,
    descriptor and answer to the overwrite question; with no detection it
    leaves the recognizer as it was. *)
Theorem enrollSelectedFace_as_prompt (overwrite : bool) (t : string)
    (u : Upload.upload) :
  Upload.selectedFaceIndex u = 0 ->
  Upload.recognizer (Upload.enrollSelectedFace overwrite t u)
  = match Upload.currentDetections u with
    | detection :: _ =>
        (enrollFaceWithPrompt (descriptor detection) (Some (Upload.faceName u))
           overwrite t (Upload.recognizer u)).2
    | [] => Upload.recognizer u
    end.
Proof.
  intros Hzero. unfold Upload.enrollSelectedFace, enrollFaceWithPrompt. rewrite Hzero.
  assert (negb (truthyString (Upload.faceName u))
          || String.eqb (trim (Upload.faceName u)) ""
          = negb (truthyString (trim (Upload.faceName u)))) as ->.
  { unfold truthyString. rewrite negb_involutive.
    destruct (String.eqb_spec (Upload.faceName u) "") as [->|_]; [done|].
    by rewrite negb_involutive. }
  assert (bool_decide (trim (Upload.faceName u) ∈ getEnrolledFaces (Upload.recognizer u))
          = bool_decide (is_Some (enrolledFaces (Upload.recognizer u)
                                    !! trim (Upload.faceName u)))) as ->.
  { apply bool_decide_ext, elem_of_getEnrolledFaces. }
  destruct (negb (truthyString (trim (Upload.faceName u)))) eqn:Hname.
  { by destruct (Upload.currentDetections u). }
  apply negb_false_iff, truthyString_true in Hname.
  destruct (Upload.currentDetections u) as [|d rest]; [done|].
  cbn [length bool_decide lookup list_lookup]. rewrite bool_decide_eq_false_2 by done.
  cbn [lookup list_lookup].
  destruct (descriptor d) as [numbers|].
  - destruct (_ && _); [done|]. by rewrite !enrollFace_accepts.
  - by destruct (_ && _).
Qed.
End UploadFacts.

Lemma handleFileSelect_validates_witness :
  Upload.alerts
    (Upload.handleFileSelect
       {| Upload.fileType := "image/png"; Upload.fileSize := 10485761 |}
       true (Returned []) (Upload.newUploadManager (platform:=demoPlatform) None))
  = ["Error: Image file is too large. Please select a file smaller than 10MB"] /\
  Upload.alerts
    (Upload.handleFileSelect
       {| Upload.fileType := "image/png"; Upload.fileSize := 10485760 |}
       true (Returned []) (Upload.newUploadManager (platform:=demoPlatform) None))
  = [].
Proof.
  split.
  - rewrite (proj1 (proj2 (handleFileSelect_validates
                             {| Upload.fileType := "image/png";
                                Upload.fileSize := 10485761 |} true (Returned [])
                             (Upload.newUploadManager (platform:=demoPlatform) None)))
               eq_refl eq_refl).
    reflexivity.
  - rewrite (proj2 (proj2 (handleFileSelect_validates
                             {| Upload.fileType := "image/png";
                                Upload.fileSize := 10485760 |} true (Returned [])
                             (Upload.newUploadManager (platform:=demoPlatform) None)))
               eq_refl).
    + reflexivity.
    + discriminate.
Defined.

Lemma enrollSelectedFace_as_prompt_witness :
  let u := Upload.typeName " Alice"
             (Upload.handleFileSelect
                {| Upload.fileType := "image/png"; Upload.fileSize := 2048 |} true
                (Returned [ {| descriptor := Some alice |}; {| descriptor := Some bob |} ])
                (Upload.modelsLoaded (Upload.newUploadManager (platform:=demoPlatform) None))) in
  Upload.currentDetections u
  = [ {| descriptor := Some alice |}; {| descriptor := Some bob |} ] /\
  Upload.recognizer (Upload.enrollSelectedFace (platform:=demoPlatform) false "t0" u)
  = (enrollFaceWithPrompt (platform:=demoPlatform) (Some alice) (Some " Alice") false "t0"
       (Upload.recognizer u)).2 /\
  getEnrolledFaces
    (Upload.recognizer (Upload.enrollSelectedFace (platform:=demoPlatform) false "t0" u))
  = ["Alice"].
Proof.
  intros u. split; [reflexivity|]. split; [|by vm_compute].
  exact (enrollSelectedFace_as_prompt (platform:=demoPlatform) false "t0" u eq_refl).
Defined.

Section UploadDetection.
Context {platform : Platform}.

(** In [detectFacesInImage] an exception of the detection library is not
    reported as an error: the detector turns it into no detections, and
    the panel says that no faces were detected. The message "Error
    detecting faces" appears only when the detector is not initialized,
    and then the detections and the form stay as they were. With an
    initialized detector the enrollment form is displayed exactly when a
    face was detected. *)
Theorem detectFacesInImage_outcome (library : outcome (list detection))
    (u : Upload.upload) :
  let u' := Upload.detectFacesInImage library u in
  if Upload.detectorInitialized u
  then
    Upload.currentDetections u'
    = match library with
      | Returned detections => detections
      | Thrown _ => []
      end /\
    (Upload.formShown u' = true <-> Upload.currentDetections u' <> []) /\
    (Upload.currentDetections u' = [] ->
     Upload.message u'
     = Some ("No faces detected in this image. Please try another image with clear faces.",
             true))
  else
    Upload.currentDetections u' = Upload.currentDetections u /\
    Upload.formShown u' = Upload.formShown u /\
    Upload.message u' = Some ("Error detecting faces. Please try again.", true).
Proof.
  unfold Upload.detectFacesInImage. simpl.
  destruct (Upload.detectorInitialized u); simpl; [|done].
  destruct library as [[|d rest]|text]; simpl; try done.
  case_bool_decide; simpl; done.
Qed.
End UploadDetection.

(* ================================================================== *)
(** * A second round trip is exact *)

(** Induction on values, with the hypothesis for every element of an array
    and every property of an object. *)
Lemma jsval_induction (P : jsval -> Prop) :
  P JNull -> (forall b, P (JBool b)) -> (forall x, P (JNum x)) ->
  (forall s, P (JStr s)) ->
  (forall xs, Forall P xs -> P (JArr xs)) ->
  (forall fields, Forall (fun kv => P kv.2) fields -> P (JObj fields)) ->
  forall v, P v.
Proof.
  intros Hnull Hbool Hnum Hstr Harr Hobj.
  fix IH 1. intros [ |b|x|s|xs|fields].
  - exact Hnull.
  - apply Hbool.
  - apply Hnum.
  - apply Hstr.
  - apply Harr. induction xs as [|x xs IHxs]; constructor; [apply IH|exact IHxs].
  - apply Hobj. induction fields as [|[k x] fields IHf]; constructor;
      [apply IH|exact IHf].
Qed.

Lemma jsonNumber_idempotent x : jsonImage (jsonNumber x) = jsonNumber x.
Proof.
  unfold jsonNumber.
  destruct (PrimFloat.is_nan x || PrimFloat.is_infinity x) eqn:Hfin; [done|].
  destruct (PrimFloat.is_zero x) eqn:Hzero; simpl; unfold jsonNumber.
  - reflexivity.
  - by rewrite Hfin, Hzero.
Qed.

Lemma jsonImage_idempotent v : jsonImage (jsonImage v) = jsonImage v.
Proof.
  induction v as [ |b|x|s|xs IH|fields IH] using jsval_induction; try done.
  - apply jsonNumber_idempotent.
  - rewrite !jsonImage_JArr. f_equal. rewrite <- list_fmap_compose.
    apply list_fmap_ext. intros i x Hx. simpl.
    eapply Forall_lookup_1 in IH; [|exact Hx]. exact IH.
  - rewrite !jsonImage_JObj. f_equal. rewrite <- list_fmap_compose.
    apply list_fmap_ext. intros i [k x] Hx. simpl.
    eapply Forall_lookup_1 in IH; [|exact Hx]. simpl in IH. by rewrite IH.
Qed.

Section SecondRoundTrip.
Context {platform : Platform}.

(** What a recognizer has loaded is reproduced exactly by every later
    [save()] and [load()]: the first round trip may change a store (a
    number that is not finite comes back as [null]), a second one changes
    nothing. *)
Theorem save_load_stable (w : world) :
  enrolledFaces (saveThenLoad (saveThenLoad w)) = enrolledFaces (saveThenLoad w).
Proof.
  rewrite !saveThenLoad_enrolledFaces, <- map_fmap_compose.
  apply map_fmap_ext. intros l v _. apply jsonImage_idempotent.
Qed.
End SecondRoundTrip.
